(** * TRAVEL_PLANNER: the expiring cache, the collaborator adapters, the
    workflow graph and the run controller.

    Shallow embedding of
    - [src/database/dual_db_manager.py]   (module [DualDb]),
    - [src/data_collection/api_collector.py] and
      [src/data_collection/web_scraper.py] (modules [ApiCollector], [WebScraper]),
    - [src/multi_agent_system/langgraph_workflow.py] and
      [src/multi_agent_system/workflow_engine.py] (modules [Workflow], [Engine]),
    - [src/app.py] with [src/utils/transport_calculator.py] (modules [App],
      [Transport]).

    Conventions.  A [datetime] is a number of microseconds ([Z]); sqlite
    compares the stored timestamps in chronological order.  A Python [dict]
    used as a table or keyed by strings is a [gmap string _]; a [dict] whose
    enumeration order matters is an association list. *)

From Stdlib Require Import ZArith Lia Ascii.
From stdpp Require Import base option list gmap strings fin_maps sorting.

Local Open Scope Z_scope.
Set Warnings "-register-all,-clear-no-such-hyp".

(** [timedelta(hours=h)] in microseconds. *)
Definition timedelta_hours (h : Z) : Z := h * 3600000000.

(** ** [DualDatabaseManager]: the two cache tables of [cache.db] *)
Module DualDb.

(** A row of [api_cache]; [cache_key] is the primary key and is the key of
    the table map.  [hit_count] is an sqlite INTEGER: a row would need 2^63
    hits to leave the 64-bit range, so it is kept as a [Z]. *)
Record api_row := ApiRow {
  api_name : string;
  endpoint : string;
  params : string;
  response_data : string;
  api_created_at : Z;
  api_expires_at : Z;
  api_hit_count : Z
}.

(** A row of [web_cache]. *)
Record web_row := WebRow {
  url : string;
  content : string;
  content_type : string;
  web_created_at : Z;
  web_expires_at : Z;
  web_hit_count : Z
}.

Record cache_db := CacheDb {
  api_cache : gmap string api_row;
  web_cache : gmap string web_row
}.

Definition empty_db : cache_db := CacheDb ∅ ∅.

(** The result of [clear_expired_cache]. *)
Record deleted := Deleted {
  api_cache_deleted : nat;
  web_cache_deleted : nat;
  total_deleted : nat
}.

Section Store.
(** [Json] is the type of JSON documents ([Dict] in the source);
    [dumps]/[loads] are [json.dumps]/[json.loads] and [md5] is
    [hashlib.md5(s.encode()).hexdigest()]. *)
Context {Json : Type}.
Variable dumps : Json → string.
Variable loads : string → Json.
Variable md5 : string → string.

(** [UPDATE api_cache SET hit_count = hit_count + 1 WHERE cache_key = ?] *)
Definition api_hit (r : api_row) : api_row :=
  ApiRow (api_name r) (endpoint r) (params r) (response_data r)
         (api_created_at r) (api_expires_at r) (api_hit_count r + 1).

Definition web_hit (r : web_row) : web_row :=
  WebRow (url r) (content r) (content_type r)
         (web_created_at r) (web_expires_at r) (web_hit_count r + 1).

(** [get_api_cache]: the row is selected when
    [cache_key = ? AND expires_at > now]; on a hit its counter is bumped
    and the decoded document is returned, otherwise [None]. *)
Definition get_api_cache (db : cache_db) (cache_key : string) (now : Z)
  : option Json * cache_db :=
  match api_cache db !! cache_key with
  | Some r =>
      if bool_decide (now < api_expires_at r) then
        (Some (loads (response_data r)),
         CacheDb (<[cache_key := api_hit r]> (api_cache db)) (web_cache db))
      else (None, db)
  | None => (None, db)
  end.

(** [set_api_cache]: [INSERT OR REPLACE]; the columns that are not listed
    ([hit_count]) take their default.  [now] is the clock read for
    [expires_at], [now'] the later one for [created_at]. *)
Definition set_api_cache (db : cache_db) (cache_key api ep : string)
    (ps response : Json) (cache_hours : Z) (now now' : Z) : cache_db :=
  CacheDb
    (<[cache_key := ApiRow api ep (dumps ps) (dumps response) now'
                           (now + timedelta_hours cache_hours) 0]>
       (api_cache db))
    (web_cache db).

(** [get_web_cache] *)
Definition get_web_cache (db : cache_db) (u : string) (now : Z)
  : option string * cache_db :=
  let cache_key := md5 u in
  match web_cache db !! cache_key with
  | Some r =>
      if bool_decide (now < web_expires_at r) then
        (Some (content r),
         CacheDb (api_cache db) (<[cache_key := web_hit r]> (web_cache db)))
      else (None, db)
  | None => (None, db)
  end.

(** [set_web_cache]; [content_type] takes its default ['html']. *)
Definition set_web_cache (db : cache_db) (u c : string)
    (cache_hours : Z) (now now' : Z) : cache_db :=
  CacheDb
    (api_cache db)
    (<[md5 u := WebRow u c "html" now'
                       (now + timedelta_hours cache_hours) 0]>
       (web_cache db)).

(** [clear_expired_cache]: two [DELETE ... WHERE expires_at < ?], each
    with its own clock read; [rowcount] is the number of rows deleted. *)
Definition clear_expired_cache (db : cache_db) (now now' : Z)
  : deleted * cache_db :=
  let api_deleted :=
    size (filter (λ kr : string * api_row, api_expires_at kr.2 < now)
                 (api_cache db)) in
  let api' :=
    filter (λ kr : string * api_row, ¬ api_expires_at kr.2 < now)
           (api_cache db) in
  let web_deleted :=
    size (filter (λ kr : string * web_row, web_expires_at kr.2 < now')
                 (web_cache db)) in
  let web' :=
    filter (λ kr : string * web_row, ¬ web_expires_at kr.2 < now')
           (web_cache db) in
  (Deleted api_deleted web_deleted (api_deleted + web_deleted)%nat,
   CacheDb api' web').

End Store.

(** [clear_all_cache]: the two [SELECT COUNT( * )], then both tables are
    emptied. *)
Definition clear_all_cache (db : cache_db) : deleted * cache_db :=
  let api_count := size (api_cache db) in
  let web_count := size (web_cache db) in
  (Deleted api_count web_count (api_count + web_count)%nat, CacheDb ∅ ∅).

(** The numbers of [get_cache_stats]; the size of the file is left out. *)
Record cache_stats := CacheStats {
  api_cache_entries : nat;
  api_cache_hits : Z;
  api_cache_expired : nat;
  web_cache_entries : nat;
  web_cache_hits : Z;
  web_cache_expired : nat
}.

(** [SELECT SUM(hit_count)] followed by [or 0]: the sum over the rows, [0]
    for the empty table. *)
Definition sum_hits {R : Type} (hit_count : R → Z) (t : gmap string R) : Z :=
  map_fold (λ _ r acc, hit_count r + acc) 0 t.

(** [get_cache_stats]; [now] and [now'] are the clock reads of the two
    [COUNT( * ) ... WHERE expires_at < ?]. *)
Definition get_cache_stats (db : cache_db) (now now' : Z) : cache_stats :=
  CacheStats
    (size (api_cache db))
    (sum_hits api_hit_count (api_cache db))
    (size (filter (λ kr : string * api_row, api_expires_at kr.2 < now)
                  (api_cache db)))
    (size (web_cache db))
    (sum_hits web_hit_count (web_cache db))
    (size (filter (λ kr : string * web_row, web_expires_at kr.2 < now')
                  (web_cache db))).

End DualDb.

(** ** Effects of the adapters

    The adapters read a clock, sleep, talk to sqlite and to the network.
    A computation threads a world and either returns or raises; the world
    survives a raise (what was committed before stays committed). *)
Module Eff.

(** The exceptions that matter here: [sqlite3.Error] from the cache file. *)
Inductive exn := SqliteError.

Inductive outcome (A : Type) :=
| Returned (a : A)
| Raised (e : exn).
Arguments Returned {A} a.
Arguments Raised {A} e.

Definition M (W A : Type) : Type := W → outcome A * W.

Definition ret {W A} (a : A) : M W A := λ w, (Returned a, w).
Definition raise {W A} (e : exn) : M W A := λ w, (Raised e, w).
Definition bind {W A B} (m : M W A) (k : A → M W B) : M W B :=
  λ w, match m w with
       | (Returned a, w') => k a w'
       | (Raised e, w') => (Raised e, w')
       end.
Definition gets {W A} (f : W → A) : M W A := λ w, (Returned (f w), w).
Definition modify {W} (f : W → W) : M W unit := λ w, (Returned tt, f w).

(** What [requests.get(...)] followed by [raise_for_status()] (and
    [response.json()] or [response.text]) gives: a body, or a
    [requests.exceptions.RequestException]. *)
Inductive http_result (B : Type) :=
| HttpOk (body : B)
| RequestException (msg : string).
Arguments HttpOk {B} body.
Arguments RequestException {B} msg.

End Eff.

Declare Scope eff_scope.
Delimit Scope eff_scope with eff.
Notation "'let*' x ':=' m 'in' k" := (Eff.bind m (λ x, k))
  (at level 10, x binder, m at level 200, k at level 200) : eff_scope.

(** ** [APICollector] *)
Module ApiCollector.
Import Eff.

(** The four APIs of [self.rate_limits]; the adapter is only called with
    these names. *)
Inductive api := google_places | openweather | foursquare | tavily.

Global Instance api_eq_dec : EqDecision api.
Proof. solve_decision. Defined.

Definition api_name_of (a : api) : string :=
  match a with
  | google_places => "google_places"
  | openweather => "openweather"
  | foursquare => "foursquare"
  | tavily => "tavily"
  end.

Definition base_urls (a : api) : string :=
  match a with
  | google_places => "https://maps.googleapis.com/maps/api/place"
  | openweather => "https://api.openweathermap.org/data/2.5"
  | foursquare => "https://api.foursquare.com/v3/places"
  | tavily => "https://api.tavily.com"
  end.

Definition requests_per_second (a : api) : Z :=
  match a with
  | google_places => 10
  | openweather => 60
  | foursquare => 500
  | tavily => 10
  end.

(** A row of the collector's own [api_cache] table ([api_cache.db]). *)
Record row := Row {
  api_name : string;
  endpoint : string;
  response_data : string;
  created_at : Z;
  expires_at : Z
}.

(** The table operations, as sqlite performs them. *)
Definition select_valid (t : gmap string row) (cache_key : string) (now : Z)
  : option row :=
  match t !! cache_key with
  | Some r => if bool_decide (now < expires_at r) then Some r else None
  | None => None
  end.

Definition insert_or_replace (t : gmap string row) (cache_key : string)
    (r : row) : gmap string row :=
  <[cache_key := r]> t.

Definition delete_expired (t : gmap string row) (now : Z)
  : nat * gmap string row :=
  (size (filter (λ kr : string * row, expires_at kr.2 < now) t),
   filter (λ kr : string * row, ¬ expires_at kr.2 < now) t).

Section Collector.
(** [Json] is a decoded JSON document; [truthy] is Python's truth value of
    it (an empty dict or list is false). *)
Context {Json : Type}.
Variable dumps : Json → string.
Variable loads : string → Json.
Variable truthy : Json → bool.
(** [cache_key_of api endpoint params] is [_generate_cache_key]; it is
    spelled out in module [CacheKey]. *)
Context {Params : Type}.
Variable cache_key_of : string → string → Params → string.
(** [params['key'] = api_key] *)
Variable with_key : Params → string → Params.

(** What the process cannot decide: the configured keys, the answers of
    the network (by number of the call) and whether sqlite can read or
    write the cache file. *)
Record env := Env {
  api_keys : api → option string;
  http : nat → string → Params → http_result Json;
  read_fails : bool;
  write_fails : bool
}.

Record world := World {
  cache : gmap string row;
  clock : Z;
  request_counts : api → Z;
  last_request_time : api → Z;
  http_calls : nat;
  slept : list Z
}.

Definition set_cache (t : gmap string row) (w : world) : world :=
  World t (clock w) (request_counts w) (last_request_time w)
        (http_calls w) (slept w).

Definition set_count (a : api) (n : Z) (w : world) : world :=
  World (cache w) (clock w)
        (λ b, if decide (b = a) then n else request_counts w b)
        (last_request_time w) (http_calls w) (slept w).

Definition set_last (a : api) (t : Z) (w : world) : world :=
  World (cache w) (clock w) (request_counts w)
        (λ b, if decide (b = a) then t else last_request_time w b)
        (http_calls w) (slept w).

(** The same world at a later reading [t] of the clock. *)
Definition at_time (t : Z) (w : world) : world :=
  World (cache w) t (request_counts w) (last_request_time w)
        (http_calls w) (slept w).

(** [time.sleep(d)], [d] in microseconds: the clock moves on. *)
Definition sleep (d : Z) : M world unit :=
  modify (λ w, World (cache w) (clock w + d) (request_counts w)
                     (last_request_time w) (http_calls w) (slept w ++ [d])).

Variable E : env.

(** [_get_cached_response] *)
Definition get_cached_response (cache_key : string) : M world (option Json) :=
  if read_fails E then raise SqliteError
  else
    (let* now := gets clock in
     let* t := gets cache in
     match select_valid t cache_key now with
     | Some r => ret (Some (loads (response_data r)))
     | None => ret None
     end)%eff.

(** [_cache_response] *)
Definition cache_response (cache_key api_n ep : string) (response : Json)
    (cache_duration_hours : Z) : M world unit :=
  if write_fails E then raise SqliteError
  else
    (let* now := gets clock in
     modify (λ w, set_cache
       (insert_or_replace (cache w) cache_key
          (Row api_n ep (dumps response) now
               (now + timedelta_hours cache_duration_hours))) w))%eff.

(** [_rate_limit_check]; [time_diff] is in microseconds here, so one second
    is [1000000].  It always answers [True]. *)
Definition rate_limit_check (a : api) : M world bool :=
  (let* now := gets clock in
   let* last := gets (λ w, last_request_time w a) in
   let time_diff := now - last in
   let* _ := (if bool_decide (1000000 ≤ time_diff)
              then modify (set_count a 0) else ret tt) in
   let* n := gets (λ w, request_counts w a) in
   let* _ := (if bool_decide (requests_per_second a ≤ n) then
                let sleep_time := 1000000 - time_diff in
                if bool_decide (0 < sleep_time) then
                  let* _ := sleep sleep_time in
                  modify (set_count a 0)
                else ret tt
              else ret tt) in
   let* n' := gets (λ w, request_counts w a) in
   let* _ := modify (set_count a (n' + 1)) in
   let* _ := modify (set_last a now) in
   ret true)%eff.

(** [requests.get(url, params=params, timeout=30)], [raise_for_status()],
    [response.json()] *)
Definition http_get (u : string) (ps : Params) : M world (http_result Json) :=
  λ w, (Returned (http E (http_calls w) u ps),
        World (cache w) (clock w) (request_counts w) (last_request_time w)
              (S (http_calls w)) (slept w)).

(** Python's [if not api_key]: [None] and the empty string are false. *)
Definition usable_key (k : option string) : option string :=
  match k with
  | Some s => if decide (s = "") then None else Some s
  | None => None
  end.

(** Python's [if cached_response]: [None] and an empty document are
    false. *)
Definition py_truth (o : option Json) : bool :=
  match o with
  | Some c => truthy c
  | None => false
  end.

(** [_make_api_request] *)
Definition make_api_request (a : api) (ep : string) (ps : Params)
    (cache_duration_hours : Z) : M world (option Json) :=
  (let cache_key := cache_key_of (api_name_of a) ep ps in
   let* cached_response := get_cached_response cache_key in
   if py_truth cached_response then ret cached_response else
   let* ok := rate_limit_check a in
   if negb ok then ret None else
   match usable_key (api_keys E a) with
   | None => ret None
   | Some k =>
       let ps' := with_key ps k in
       let u := (base_urls a +:+ "/" +:+ ep)%string in
       let* r := http_get u ps' in
       match r with
       | HttpOk response_data =>
           let* _ := cache_response cache_key (api_name_of a) ep
                                    response_data cache_duration_hours in
           ret (Some response_data)
       | RequestException _ => ret None
       end
   end)%eff.

(** [clear_expired_cache] *)
Definition clear_expired_cache : M world nat :=
  (let* now := gets clock in
   let* t := gets cache in
   let* _ := modify (set_cache (delete_expired t now).2) in
   ret (delete_expired t now).1)%eff.

End Collector.

(** For the examples: documents and parameters are kept as text; the
    network fails on the first call only ([flaky_env]), or the cache file
    cannot be read ([unreadable_env]) or written ([unwritable_env]). *)
Definition text_truthy (s : string) : bool := negb (bool_decide (s = "")).
Definition text_key (api_n ep : string) (ps : list (string * string)) : string :=
  api_n +:+ ":" +:+ ep.
Definition text_with_key (ps : list (string * string)) (k : string)
  : list (string * string) := ps ++ [("key", k)].

Definition flaky_env : @env string (list (string * string)) :=
  Env (λ _, Some "secret")
      (λ n _ _, match n with
                | O => RequestException "connection reset"
                | S _ => HttpOk "[1]"
                end)
      false false.

Definition unreadable_env : @env string (list (string * string)) :=
  Env (λ _, Some "secret") (λ _ _ _, HttpOk "[1]") true false.

Definition unwritable_env : @env string (list (string * string)) :=
  Env (λ _, Some "secret") (λ _ _ _, HttpOk "[1]") false true.

Definition fresh_world : world :=
  World ∅ 0 (λ _, 0) (λ _, 0) 0 [].

Definition text_request (E : @env string (list (string * string)))
  : M world (option string) :=
  make_api_request (λ s, s) (λ s, s) text_truthy text_key text_with_key E
                   openweather "weather" [("q", "Hue")] 6.

End ApiCollector.

(** ** [WebScraper] *)
Module WebScraper.
Import Eff.

(** [self.max_retries] *)
Definition max_retries : nat := 3.

(** A row of the scraper's [web_cache] table ([web_scraper_cache.db]). *)
Record row := Row {
  url : string;
  content : string;
  created_at : Z;
  expires_at : Z
}.

Definition select_valid (t : gmap string row) (cache_key : string) (now : Z)
  : option row :=
  match t !! cache_key with
  | Some r => if bool_decide (now < expires_at r) then Some r else None
  | None => None
  end.

Definition delete_expired (t : gmap string row) (now : Z)
  : nat * gmap string row :=
  (size (filter (λ kr : string * row, expires_at kr.2 < now) t),
   filter (λ kr : string * row, ¬ expires_at kr.2 < now) t).

Section Scraper.
(** [md5] is [hashlib.md5(url.encode()).hexdigest()] ([_generate_cache_key]). *)
Variable md5 : string → string.

(** The answers of the network and the draws of [random.uniform(1, 3)]
    (in microseconds), both by number of the call, and the health of the
    cache file. *)
Record env := Env {
  http : nat → string → http_result string;
  uniform_delay : nat → Z;
  read_fails : bool;
  write_fails : bool
}.

Record world := World {
  cache : gmap string row;
  clock : Z;
  http_calls : nat;
  slept : list Z
}.

(** The same world at a later reading [t] of the clock. *)
Definition at_time (t : Z) (w : world) : world :=
  World (cache w) t (http_calls w) (slept w).

Variable E : env.

Definition sleep (d : Z) : M world unit :=
  modify (λ w, World (cache w) (clock w + d) (http_calls w) (slept w ++ [d])).

(** [_get_cached_content] *)
Definition get_cached_content (cache_key : string) : M world (option string) :=
  if read_fails E then raise SqliteError
  else
    (let* now := gets clock in
     let* t := gets cache in
     match select_valid t cache_key now with
     | Some r => ret (Some (content r))
     | None => ret None
     end)%eff.

(** [_cache_content] *)
Definition cache_content (cache_key u c : string) (cache_duration_hours : Z)
  : M world unit :=
  if write_fails E then raise SqliteError
  else
    (let* now := gets clock in
     modify (λ w, World
       (<[cache_key := Row u c now (now + timedelta_hours cache_duration_hours)]>
          (cache w))
       (clock w) (http_calls w) (slept w)))%eff.

(** [_random_delay] *)
Definition random_delay : M world unit :=
  (let* n := gets http_calls in sleep (uniform_delay E n))%eff.

(** [self.session.get(url, timeout=30)], [raise_for_status()],
    [response.text] *)
Definition http_get (u : string) : M world (http_result string) :=
  λ w, (Returned (http E (http_calls w) u),
        World (cache w) (clock w) (S (http_calls w)) (slept w)).

(** Python's [if cached_content]: [None] and the empty string are false. *)
Definition py_truth (o : option string) : bool :=
  match o with
  | Some c => negb (bool_decide (c = ""))
  | None => false
  end.

(** [_make_request], by recursion on [left = max_retries - retries]: the
    test [retries < self.max_retries] is [left ≠ 0]. *)
Fixpoint make_request_from (left : nat) (u : string) (retries : nat)
    (cache_duration_hours : Z) : M world (option string) :=
  (let cache_key := md5 u in
   let* cached_content := get_cached_content cache_key in
   if py_truth cached_content then ret cached_content else
   let* _ := random_delay in
   let* r := http_get u in
   match r with
   | HttpOk text =>
       let* _ := cache_content cache_key u text cache_duration_hours in
       ret (Some text)
   | RequestException _ =>
       match left with
       | S left' =>
           let* _ := sleep (2 ^ Z.of_nat retries * 1000000) in
           make_request_from left' u (S retries) cache_duration_hours
       | O => ret None
       end
   end)%eff.

Definition make_request (u : string) (retries : nat)
    (cache_duration_hours : Z) : M world (option string) :=
  make_request_from (max_retries - retries) u retries cache_duration_hours.

(** The calls of [time.sleep] of a request whose attempts all fail, from
    call number [n] on: the random delay before each attempt and the
    backoff [2 ** retries] seconds before each retry. *)
Fixpoint failing_sleeps (left : nat) (n : nat) (retries : nat) : list Z :=
  uniform_delay E n ::
  match left with
  | S left' =>
      2 ^ Z.of_nat retries * 1000000 :: failing_sleeps left' (S n) (S retries)
  | O => []
  end.

(** [clear_expired_cache] *)
Definition clear_expired_cache : M world nat :=
  (let* now := gets clock in
   let* t := gets cache in
   let* _ := modify (λ w, World (delete_expired t now).2 (clock w)
                                (http_calls w) (slept w)) in
   ret (delete_expired t now).1)%eff.

End Scraper.

(** For the examples: the site is down ([down_env]), or the cache file
    cannot be read ([unreadable_env]) or written ([unwritable_env]); every
    random delay is two seconds. *)
Definition down_env : env :=
  Env (λ _ _, RequestException "connection refused") (λ _, 2000000)
      false false.

Definition unreadable_env : env :=
  Env (λ _ _, HttpOk "<html></html>") (λ _, 2000000) true false.

Definition unwritable_env : env :=
  Env (λ _ _, HttpOk "<html></html>") (λ _, 2000000) false true.

Definition fresh_world : world := World ∅ 0 0 [].

Definition page_request (E : env) : M world (option string) :=
  make_request (λ s, s) E "https://vietnam.travel/destinations/hue" 0 12.

End WebScraper.

(** ** [APICollector._generate_cache_key] *)
Module CacheKey.

(** The JSON documents that [json.dumps] serialises here: the values of a
    request's parameters are strings, integers and booleans, possibly
    nested in lists and dicts.  A [dict] is the list of its items in
    enumeration (insertion) order; its keys are distinct. *)
Inductive json :=
| JNull
| JBool (b : bool)
| JInt (z : Z)
| JStr (s : string)
| JList (l : list json)
| JDict (items : list (string * json)).

(** The order of [sorted(dct.items())]: items are compared by key (keys are
    distinct, so the values never decide). *)
Definition item_le (x y : string * string) : Prop := String.le x.1 y.1.

Global Instance item_le_dec : RelDecision item_le.
Proof. intros x y. unfold item_le. apply _. Defined.

Definition sort_items (l : list (string * string)) : list (string * string) :=
  merge_sort item_le l.

(** [sep.join(l)] *)
Fixpoint join (sep : string) (l : list string) : string :=
  match l with
  | [] => ""
  | [x] => x
  | x :: l' => x +:+ sep +:+ join sep l'
  end.

Section Dumps.
(** [json_string s] is the JSON string literal of [s] (quotes and escapes,
    [ensure_ascii]); [json_int z] the decimal numeral of [z]; [md5 s] is
    [hashlib.md5(s.encode()).hexdigest()]. *)
Variable json_string : string → string.
Variable json_int : Z → string.
Variable md5 : string → string.

Definition render_item (kv : string * string) : string :=
  json_string kv.1 +:+ ": " +:+ kv.2.

(** [json.dumps(j, sort_keys=True)] with the default separators. *)
Fixpoint dumps_sorted (j : json) : string :=
  match j with
  | JNull => "null"
  | JBool true => "true"
  | JBool false => "false"
  | JInt z => json_int z
  | JStr s => json_string s
  | JList l => "[" +:+ join ", " (map dumps_sorted l) +:+ "]"
  | JDict items =>
      "{" +:+
      join ", "
        (map render_item
           (sort_items (map (λ kv, let '(k, v) := kv in (k, dumps_sorted v))
                            items))) +:+
      "}"
  end.

(** An item with its value serialised. *)
Definition rendered (kv : string * json) : string * string :=
  let '(k, v) := kv in (k, dumps_sorted v).

(** [_generate_cache_key] *)
Definition generate_cache_key (api_name endpoint : string)
    (params : list (string * json)) : string :=
  let key_string :=
    api_name +:+ ":" +:+ endpoint +:+ ":" +:+ dumps_sorted (JDict params) in
  md5 key_string.

End Dumps.

(** Two documents are the same up to the order in which their dicts, at
    any depth, enumerate their items (Python's [==] on such values). *)
Inductive json_equiv : json → json → Prop :=
| je_null : json_equiv JNull JNull
| je_bool b : json_equiv (JBool b) (JBool b)
| je_int z : json_equiv (JInt z) (JInt z)
| je_str s : json_equiv (JStr s) (JStr s)
| je_list l1 l2 :
    Forall2 json_equiv l1 l2 → json_equiv (JList l1) (JList l2)
| je_dict items1 items items2 :
    items1 ≡ₚ items →
    Forall2 (λ x y : string * json, x.1 = y.1 ∧ json_equiv x.2 y.2)
            items items2 →
    json_equiv (JDict items1) (JDict items2).

(** The keys of every dict of the document are distinct. *)
Fixpoint distinct_keys (j : json) : Prop :=
  match j with
  | JList l => foldr (λ x acc, distinct_keys x ∧ acc) True l
  | JDict items =>
      NoDup items.*1 ∧
      foldr (λ kv acc, (let '(_, v) := kv in distinct_keys v) ∧ acc) True items
  | _ => True
  end.

End CacheKey.

(** ** The workflow graph of [build_travel_workflow_graph] *)
Module Workflow.

(** The ten nodes of the graph. *)
Inductive stage :=
| api_collector | web_scraper | data_processor
| recommendation | sentiment_analyzer | similarity_engine | price_predictor
| planner | researcher | analytics_engine.

Global Instance stage_eq_dec : EqDecision stage.
Proof. solve_decision. Defined.

(** In the order of the [graph.add_node] calls. *)
Definition all_stages : list stage :=
  [api_collector; web_scraper; data_processor;
   recommendation; sentiment_analyzer; similarity_engine; price_predictor;
   planner; researcher; analytics_engine].

(** The node name, which [_mark_step] records. *)
Definition name (s : stage) : string :=
  match s with
  | api_collector => "api_collector"
  | web_scraper => "web_scraper"
  | data_processor => "data_processor"
  | recommendation => "recommendation"
  | sentiment_analyzer => "sentiment_analyzer"
  | similarity_engine => "similarity_engine"
  | price_predictor => "price_predictor"
  | planner => "planner"
  | researcher => "researcher"
  | analytics_engine => "analytics_engine"
  end.

(** The stage name as the node spells it in its error message. *)
Definition label (s : stage) : string :=
  match s with
  | api_collector => "API Collector"
  | web_scraper => "Web Scraper"
  | data_processor => "Data Processor"
  | recommendation => "Recommendation"
  | sentiment_analyzer => "Sentiment Analyzer"
  | similarity_engine => "Similarity Engine"
  | price_predictor => "Price Predictor"
  | planner => "Planner"
  | researcher => "Researcher"
  | analytics_engine => "Analytics Engine"
  end.

(** The state key that the node writes. *)
Definition out_field (s : stage) : string :=
  match s with
  | api_collector => "collected_data"
  | web_scraper => "scraped_data"
  | data_processor => "processed_data"
  | recommendation => "recommendations"
  | sentiment_analyzer => "sentiment_analysis"
  | similarity_engine => "similarity_results"
  | price_predictor => "price_predictions"
  | planner => "travel_plan"
  | researcher => "research_insights"
  | analytics_engine => "analytics_results"
  end.

(** [graph.set_entry_point], the [graph.add_edge] calls between nodes, and
    the node with the edge to [END]. *)
Definition entry : stage := api_collector.

Definition edges : list (stage * stage) :=
  [(api_collector, web_scraper);
   (web_scraper, data_processor);
   (data_processor, recommendation);
   (data_processor, sentiment_analyzer);
   (data_processor, similarity_engine);
   (data_processor, price_predictor);
   (recommendation, planner);
   (sentiment_analyzer, planner);
   (similarity_engine, planner);
   (price_predictor, planner);
   (planner, researcher);
   (researcher, analytics_engine)].

Definition sink : stage := analytics_engine.

Definition upstream (s : stage) : list stage :=
  (filter (λ e : stage * stage, e.2 = s) edges).*1.

Definition downstream (s : stage) : list stage :=
  (filter (λ e : stage * stage, e.1 = s) edges).*2.

Section Nodes.
(** [Data] is the type of the values held under the state's keys. *)
Context {Data : Type}.

(** [TravelState] ([total=False]: any key may be absent).  The two tracking
    keys hold lists of strings; the other keys are in [fields]. *)
Record State := MkState {
  fields : gmap string Data;
  steps_completed : option (list string);
  errors : option (list string)
}.

(** [state.get("steps_completed", [])] and [state.get("errors", [])] *)
Definition get_steps (st : State) : list string :=
  default [] (steps_completed st).
Definition get_errors (st : State) : list string :=
  default [] (errors st).

(** [_mark_step(step_name)(state)] *)
Definition mark_step (step_name : string) (st : State) : State :=
  MkState (fields st) (Some (get_steps st ++ [step_name])) (errors st).

(** What the statements inside a node's [try] compute from the state: the
    value for the node's key, or an exception [e] with [str(e) = msg]. *)
Inductive result :=
| Value (v : Data)
| Exception (msg : string).

Variable body : stage → State → result.

Definition error_entry (s : stage) (msg : string) : string :=
  label s +:+ " error: " +:+ msg.

(** The node functions [_api_collector_node], ..., [_analytics_engine_node]:
    [try: state[key] = ...; return _mark_step(name)(state)
     except Exception as e: errors = list(state.get("errors", []));
     errors.append(f"<label> error: {str(e)}"); state["errors"] = errors]. *)
Definition node (s : stage) (st : State) : State :=
  match body s st with
  | Value v =>
      mark_step (name s)
        (MkState (<[out_field s := v]> (fields st))
                 (steps_completed st) (errors st))
  | Exception msg =>
      MkState (fields st) (steps_completed st)
              (Some (get_errors st ++ [error_entry s msg]))
  end.

Definition raises (s : stage) (st : State) : bool :=
  match body s st with
  | Value _ => false
  | Exception _ => true
  end.

(** *** The executor *)

(** What a stage function that was given the state [seen] hands back to the
    executor: the value for its key (its partial update), or its error,
    tagged with the stage. *)
Inductive update :=
| Wrote (v : Data)
| Recorded (entry : string).

Definition writes (s : stage) (seen : State) : update :=
  match body s seen with
  | Value v => Wrote v
  | Exception msg => Recorded (error_entry s msg)
  end.

(** What a stage handed back, merged into the shared state: its key takes
    the value written last and its name is added to [steps_completed]; an
    error is appended to [errors].  Nothing that is already in the two
    sequences of the shared state is touched. *)
Definition merge (s : stage) (u : update) (st : State) : State :=
  match u with
  | Wrote v =>
      MkState (<[out_field s := v]> (fields st))
              (Some (get_steps st ++ [name s])) (errors st)
  | Recorded entry =>
      MkState (fields st) (steps_completed st)
              (Some (get_errors st ++ [entry]))
  end.

(** Modelled from the spec: the Workflow Executor.  The source builds the
    graph and calls [graph.compile()]; the executor of the graph is not part
    of it.  Following the spec's state machine, a stage goes
    [Waiting → Running → Done] or [Errored]; it is dispatched when every
    stage of its upstream set is [Done] or [Errored], and receives a
    snapshot of the state; stages that are running together complete in any
    order, one at a time; a completing stage has worked on its snapshot, or
    on the shared state itself (the node functions mutate the dict they are
    given); its partial update is merged into the shared state, last writer
    wins per field, and its error is appended to the [errors] of the shared
    state, which is append-only; a stage whose function reports an error
    becomes [Errored] and the run goes on. *)
Inductive status := Waiting | Running | Done | Errored.

Global Instance status_eq_dec : EqDecision status.
Proof. solve_decision. Defined.

Definition terminal (x : status) : bool :=
  match x with
  | Done | Errored => true
  | Waiting | Running => false
  end.

Inductive event :=
| Dispatch (s : stage)
| Complete (s : stage).

Global Instance event_eq_dec : EqDecision event.
Proof. solve_decision. Defined.

Record run_state := MkRun {
  state : State;
  snapshot : stage → State;
  stat : stage → status;
  events : list event
}.

Definition init (st0 : State) : run_state :=
  MkRun st0 (λ _, st0) (λ _, Waiting) [].

Definition set_stat (s : stage) (x : status) (f : stage → status)
  : stage → status :=
  λ s', if decide (s' = s) then x else f s'.

Definition set_snapshot (s : stage) (st : State) (f : stage → State)
  : stage → State :=
  λ s', if decide (s' = s) then st else f s'.

Definition ready (rs : run_state) (s : stage) : bool :=
  bool_decide (stat rs s = Waiting) &&
  forallb (λ u, terminal (stat rs u)) (upstream s).

Definition dispatch (s : stage) (rs : run_state) : run_state :=
  MkRun (state rs) (set_snapshot s (state rs) (snapshot rs))
        (set_stat s Running (stat rs)) (events rs ++ [Dispatch s]).

Definition complete (s : stage) (seen : State) (rs : run_state) : run_state :=
  MkRun (merge s (writes s seen) (state rs))
        (snapshot rs)
        (set_stat s (if raises s seen then Errored else Done) (stat rs))
        (events rs ++ [Complete s]).

Inductive step : run_state → run_state → Prop :=
| step_dispatch rs s :
    ready rs s = true → step rs (dispatch s rs)
| step_complete rs s seen :
    stat rs s = Running →
    seen = snapshot rs s ∨ seen = state rs →
    step rs (complete s seen rs).

(** The run-level state: [Pending → Running → Completed]; [Failed] is for
    structural errors and timeouts. *)
Inductive run_status := Pending | InProgress | Completed | Failed.

Definition status_of (rs : run_state) : run_status :=
  if forallb (λ s, terminal (stat rs s)) all_stages then Completed
  else if bool_decide (events rs = []) then Pending
  else InProgress.

(** A run has finished when the executor has nothing left to do. *)
Definition finished (rs : run_state) : Prop := ∀ rs', ¬ step rs rs'.

(** [rs] is the end of a run from the initial state [st0]. *)
Definition run (st0 : State) (rs : run_state) : Prop :=
  rtc step (init st0) rs ∧ finished rs.

(** One schedule: dispatch whatever is ready, then complete whatever is
    running (each stage on its snapshot), in the order of [all_stages]. *)
Definition dispatch_ready (rs : run_state) : run_state :=
  foldl (λ r s, if ready r s then dispatch s r else r) rs all_stages.

Definition complete_running (rs : run_state) : run_state :=
  foldl (λ r s, if bool_decide (stat r s = Running)
                then complete s (snapshot r s) r else r)
        rs all_stages.

Fixpoint execute (rounds : nat) (rs : run_state) : run_state :=
  match rounds with
  | O => rs
  | S n => execute n (complete_running (dispatch_ready rs))
  end.

(** What is left to do for a stage, and for the run: the executor's
    measure of progress. *)
Definition weight (x : status) : nat :=
  match x with
  | Waiting => 2
  | Running => 1
  | Done | Errored => 0
  end.

Definition work_left (rs : run_state) : nat :=
  sum_list ((λ s, weight (stat rs s)) <$> all_stages).

(** What the executor maintains, in terms of the log of events. *)
Record invariant (rs : run_state) : Prop := MkInvariant {
  inv_waiting : ∀ s, stat rs s = Waiting ↔ Dispatch s ∉ events rs;
  inv_terminal : ∀ s, terminal (stat rs s) = true ↔ Complete s ∈ events rs;
  inv_nodup : NoDup (events rs);
  inv_upstream : ∀ i s, events rs !! i = Some (Dispatch s) →
    ∀ u, u ∈ upstream s → ∃ j, (j < i)%nat ∧ events rs !! j = Some (Complete u);
  inv_dispatched : ∀ i s, events rs !! i = Some (Complete s) →
    ∃ j, (j < i)%nat ∧ events rs !! j = Some (Dispatch s)
}.

End Nodes.

(** For the examples: a run in which [recommendation] raises and every
    other stage succeeds, from the empty state. *)
Definition boom_body (s : stage) (st : @State unit)
  : @result unit :=
  if decide (s = recommendation) then Exception "boom"
  else Value tt.

Definition empty_state : @State unit := MkState ∅ None None.

Definition boom_run : @run_state unit :=
  execute boom_body 7 (init empty_state).

End Workflow.

(** ** [WorkflowEngine._execute_workflow_steps] *)
Module Engine.

(** What [step.get("agent", "unknown")] can be: a name, or a value that is
    not hashable (a list, a dict), for which
    [agent_name not in self.agent_registry] raises a [TypeError]. *)
Inductive agent_ref :=
| AgentName (a : string)
| Unhashable (msg : string).

(** A step of [config["steps"]]; an absent key is [None]. *)
Record step_cfg := StepCfg {
  cfg_name : option string;
  cfg_type : option string;
  cfg_agent : option agent_ref;
  cfg_transform : option string;
  cfg_condition : option string
}.

(** [step.get("name", "unknown")] *)
Definition step_name (step : step_cfg) : string :=
  default "unknown" (cfg_name step).

(** The result of a step function: the dict to merge, or an exception [e]
    with [str(e) = msg]. *)
Inductive step_result :=
| Returns (d : gmap string string)
| Raises (msg : string).

Section Steps.
(** [self.agent_registry] (its keys) and [datetime.now().isoformat()] at
    the [i]-th step. *)
Variable agent_registry : gset string.
Variable now_iso : nat → string.

(** [_execute_agent_step] *)
Definition execute_agent_step (step : step_cfg) (i : nat) : step_result :=
  match default (AgentName "unknown") (cfg_agent step) with
  | Unhashable msg => Raises msg
  | AgentName a =>
      if bool_decide (a ∉ agent_registry) then
        Returns {[ "error" := "Agent '" +:+ a +:+ "' not registered" ]}
      else
        Returns (<[a +:+ "_result" := "Executed " +:+ a +:+ " successfully"]>
                 (<[a +:+ "_timestamp" := now_iso i]>
                  {[ a +:+ "_status" := "success" ]}))
  end.

(** [_execute_transform_step] *)
Definition execute_transform_step (step : step_cfg) (i : nat) : step_result :=
  let transform_type := default "unknown" (cfg_transform step) in
  Returns (<["transform_" +:+ transform_type :=
             "Applied " +:+ transform_type +:+ " transformation"]>
           (<["transform_timestamp" := now_iso i]>
            {[ "transform_status" := "success" ]})).

(** [_execute_condition_step] *)
Definition execute_condition_step (step : step_cfg) (i : nat) : step_result :=
  let condition := default "true" (cfg_condition step) in
  Returns (<["condition_result" := condition]>
           (<["condition_timestamp" := now_iso i]>
            {[ "condition_status" := "evaluated" ]})).

Definition execute_step (step : step_cfg) (i : nat) : step_result :=
  let step_type := default "agent_call" (cfg_type step) in
  if decide (step_type = "agent_call") then execute_agent_step step i
  else if decide (step_type = "data_transform") then
    execute_transform_step step i
  else if decide (step_type = "condition") then
    execute_condition_step step i
  else Returns {[ "error" := "Unknown step type: " +:+ step_type ]}.

(** The loop of [_execute_workflow_steps]: [current_data.update(result)]
    and the step's name appended to [steps_completed]; on an exception
    [current_data["error"] = str(e)] and [break].  The result is
    [current_data] with the [steps_completed] of the active workflow. *)
Fixpoint execute_workflow_steps (steps : list step_cfg) (i : nat)
    (current_data : gmap string string) (completed : list string)
  : gmap string string * list string :=
  match steps with
  | [] => (current_data, completed)
  | step :: rest =>
      match execute_step step i with
      | Returns result =>
          execute_workflow_steps rest (S i) (result ∪ current_data)
                                 (completed ++ [step_name step])
      | Raises msg => (<["error" := msg]> current_data, completed)
      end
  end.

End Steps.

(** *** [WorkflowEngine.execute_workflow] *)

(** An entry of [self.workflows]: the configuration, whose ["steps"] may be
    absent, and [registered_at]. *)
Record workflow_entry := WorkflowEntry {
  wf_steps : option (list step_cfg);
  wf_registered_at : string
}.

(** An entry of [self.active_workflows]. *)
Record active := Active {
  act_workflow_name : string;
  act_status : string;
  act_started_at : string;
  act_input_data : gmap string string;
  act_steps_completed : list string;
  act_current_step : option string;
  act_completed_at : option string;
  act_result : option (gmap string string)
}.

(** An entry of [self.workflow_history]: the id, the name, the status and
    [result_summary["success"]].  ([execution_time], a float, and the
    [data_keys] and [result_size] of the summary are not kept.) *)
Record history_entry := HistoryEntry {
  h_workflow_id : string;
  h_workflow_name : string;
  h_status : string;
  h_success : bool
}.

Record engine := MkEngine {
  workflows : gmap string workflow_entry;
  active_workflows : gmap string active;
  workflow_history : list history_entry
}.

Section Runs.
Variable agent_registry : gset string.
Variable now_iso : nat → string.

(** The value of [current_step] when the loop of [_execute_workflow_steps]
    ends: the name of the step that was started last. *)
Fixpoint last_started (steps : list step_cfg) (i : nat) (current : option string)
  : option string :=
  match steps with
  | [] => current
  | step :: rest =>
      match execute_step agent_registry now_iso step i with
      | Returns _ => last_started rest (S i) (Some (step_name step))
      | Raises _ => Some (step_name step)
      end
  end.

(** [_summarize_result(result)["success"]] *)
Definition success (result : gmap string string) : bool :=
  bool_decide ("error" ∉ dom result).

(** [execute_workflow]; [stamp] is [datetime.now().strftime('%Y%m%d_%H%M%S')],
    [started] and [completed] are the two [isoformat()] readings.  With a
    configuration that is a dict and steps that are dicts, nothing raises
    outside the loop of [_execute_workflow_steps], so the [except] branch
    (status ["failed"]) is not entered. *)
Definition execute_workflow (workflow_name : string)
    (input_data : gmap string string) (stamp started completed : string)
    (eng : engine) : gmap string string * engine :=
  match workflows eng !! workflow_name with
  | None =>
      ({[ "error" := "Workflow '" +:+ workflow_name +:+ "' not found" ]}, eng)
  | Some entry =>
      let workflow_id := workflow_name +:+ "_" +:+ stamp in
      let steps := default [] (wf_steps entry) in
      let out :=
        execute_workflow_steps agent_registry now_iso steps 0 input_data [] in
      (out.1,
       MkEngine
         (workflows eng)
         (<[workflow_id :=
              Active workflow_name "completed" started input_data out.2
                     (last_started steps 0 None) (Some completed)
                     (Some out.1)]> (active_workflows eng))
         (workflow_history eng ++
            [HistoryEntry workflow_id workflow_name "completed"
                          (success out.1)]))
  end.

End Runs.

(** For the examples: three agent steps named after stages of the graph;
    the agent of the second one is a list, so that looking it up in the
    registry raises [TypeError]. *)
Definition travel_agents : gset string :=
  {[ "api_collector"; "recommendation"; "analytics_engine" ]}.

Definition agent_step (a : string) : step_cfg :=
  StepCfg (Some a) (Some "agent_call") (Some (AgentName a)) None None.

Definition failing_steps : list step_cfg :=
  [agent_step "api_collector";
   StepCfg (Some "recommendation") (Some "agent_call")
           (Some (Unhashable "unhashable type: 'list'")) None None;
   agent_step "analytics_engine"].

Definition failing_engine : engine :=
  MkEngine {[ "travel" := WorkflowEntry (Some failing_steps) "t0" ]} ∅ [].

Definition failing_run : gmap string string * engine :=
  execute_workflow travel_agents (λ _, "t1") "travel" ∅ "20250101_000000"
                   "t1" "t2" failing_engine.
End Engine.

(** ** The run controller: [tao_ke_hoach_du_lich] of [app.py] *)
Module App.

(** A Python call that returns, or raises an [Exception] [e] with
    [str(e) = msg]. *)
Inductive res (A : Type) :=
| Ok (a : A)
| Err (msg : string).
Arguments Ok {A} a.
Arguments Err {A} msg.

(** [s.replace(c, "")] for a one-character [c]. *)
Fixpoint remove_char (c : ascii) (s : string) : string :=
  match s with
  | EmptyString => EmptyString
  | String a s' =>
      if decide (a = c) then remove_char c s' else String a (remove_char c s')
  end.

(** The arguments of the call [run_travel_workflow(destination=..,
    budget=.., days=.., travelers=.., interests=..)]. *)
Record workflow_args := WorkflowArgs {
  destination : string;
  budget : Z;
  days : Z;
  travelers : Z;
  interests : string
}.

(** How a call of the controller ends, as far as the workflow is
    concerned. *)
Inductive outcome :=
| MissingDestination
    (* [return "Lỗi: Vui lòng nhập điểm đến!"], nothing was run *)
| BudgetInsufficient
    (* [return] of the "NGÂN SÁCH KHÔNG ĐỦ" page, nothing was run *)
| Failed (msg : string)
    (* an exception before the workflow call, shown by the outer [except] *)
| WorkflowInvoked (args : workflow_args).

Definition invoked (o : outcome) : bool :=
  match o with
  | WorkflowInvoked _ => true
  | _ => false
  end.

(** [validate_budget] of [transport_calculator.py]: the flag [is_valid] and
    [breakdown['remaining']].  The divisions [remaining / days] raise
    [ZeroDivisionError] for [days = 0]. *)
Definition validate_budget (total_budget transport_cost days travelers : Z)
  : res (bool * Z) :=
  let remaining := total_budget - transport_cost in
  let min_hotel_per_day := 200000 in
  let min_food_per_day := 150000 in
  let min_activities := 100000 in
  let min_cost_per_day :=
    min_hotel_per_day + min_food_per_day + min_activities in
  let min_total_needed :=
    transport_cost + (min_cost_per_day * days * travelers) in
  if bool_decide (total_budget < min_total_needed) then
    if bool_decide (0 < remaining) && bool_decide (days = 0)
    then Err "division by zero"
    else Ok (false, remaining)
  else
    if bool_decide (days = 0) then Err "division by zero"
    else Ok (true, remaining).

Section Controller.
(** [strip s] is [s.strip()] and [py_int s] is [int(s)] ([None] when it
    raises [ValueError]).  [get_distance] is the function of that name.
    [far_min_cost distance travelers] is [min_cost] for a distance that is
    not zero; it is computed in floating point.  [rag] is
    [rag_agent.get_recommendations]. *)
Variable strip : string → string.
Variable py_int : string → option Z.
Variable get_distance : string → string → option Z.
Variable far_min_cost : Z → Z → res Z.
Variable rag : string → Z → Z → Z → string → res unit.

(** [not s or not s.strip()] *)
Definition blank (s : string) : bool :=
  bool_decide (s = "") || bool_decide (strip s = "").

(** [calculate_transport_cost(...)['min_cost']] *)
Definition transport_min_cost (from_city to_city : string) (travelers : Z)
  : res Z :=
  match get_distance from_city to_city with
  | None => Ok 0
  | Some distance =>
      if bool_decide (distance = 0) then Ok (7000 * travelers * 4)
      else far_min_cost distance travelers
  end.

(** [int(ngan_sach.replace(",", "").replace(".", "").strip())
     if ngan_sach else 10000000], and [10000000] when that raises. *)
Definition parse_budget (ngan_sach : string) : Z :=
  if bool_decide (ngan_sach = "") then 10000000
  else default 10000000
         (py_int (strip (remove_char "." (remove_char "," ngan_sach)))).

Definition parse_days (so_ngay : string) : Z :=
  if bool_decide (so_ngay = "") then 3
  else default 3 (py_int (strip so_ngay)).

Definition parse_travelers (so_nguoi : string) : Z :=
  if bool_decide (so_nguoi = "") then 2
  else default 2 (py_int (strip so_nguoi)).

(** [tao_ke_hoach_du_lich] up to the call of [run_travel_workflow]. *)
Definition tao_ke_hoach_du_lich
    (diem_di diem_den ngan_sach so_ngay so_nguoi so_thich : string)
  : outcome :=
  if blank diem_den then MissingDestination else
  let diem_di := if blank diem_di then diem_den else diem_di in
  let budget := parse_budget ngan_sach in
  let days := parse_days so_ngay in
  let travelers := parse_travelers so_nguoi in
  match transport_min_cost diem_di diem_den travelers with
  | Err msg => Failed msg
  | Ok transport_cost =>
      match validate_budget budget transport_cost days travelers with
      | Err msg => Failed msg
      | Ok (false, _) => BudgetInsufficient
      | Ok (true, remaining) =>
          match rag diem_den remaining days travelers so_thich with
          | Err msg => Failed msg
          | Ok _ =>
              WorkflowInvoked
                (WorkflowArgs diem_den budget days travelers so_thich)
          end
      end
  end.

End Controller.

(** For the examples: [str.strip] and [int] on ASCII text without inner
    blanks, that is a numeral with an optional sign. *)
Definition is_space (a : ascii) : bool :=
  bool_decide (a = " "%char) || bool_decide (a = "009"%char) ||
  bool_decide (a = "010"%char) || bool_decide (a = "013"%char).

Fixpoint lstrip (s : string) : string :=
  match s with
  | EmptyString => EmptyString
  | String a s' => if is_space a then lstrip s' else s
  end.

Definition ascii_strip (s : string) : string :=
  String.rev (lstrip (String.rev (lstrip s))).

Definition digit_of (a : ascii) : option Z :=
  let n := Z.of_N (N_of_ascii a) in
  if bool_decide (48 ≤ n ≤ 57) then Some (n - 48) else None.

Fixpoint digits_value (acc : Z) (s : string) : option Z :=
  match s with
  | EmptyString => Some acc
  | String a s' =>
      match digit_of a with
      | Some d => digits_value (10 * acc + d) s'
      | None => None
      end
  end.

Definition numeral (s : string) : option Z :=
  match s with
  | EmptyString => None
  | _ => digits_value 0 s
  end.

Definition dec_int (s : string) : option Z :=
  match s with
  | String "-" s' => Z.opp <$> numeral s'
  | String "+" s' => numeral s'
  | _ => numeral s
  end.

(** For the examples: a trip within one city ([get_distance] gives [0] for
    equal names), a recommender that answers, and the controller run with
    them. *)
Definition within_city (c1 c2 : string) : option Z :=
  if decide (c1 = c2) then Some 0 else None.

Definition rag_answers (_ : string) (_ _ _ : Z) (_ : string) : res unit :=
  Ok tt.

Definition local_trip (diem_den ngan_sach so_ngay so_nguoi : string) : outcome :=
  tao_ke_hoach_du_lich ascii_strip dec_int within_city (λ _ _, Ok 0)
    rag_answers "" diem_den ngan_sach so_ngay so_nguoi "".

End App.

(** ** [transport_calculator.py]: distances between cities *)
Module Transport.

(** [DISTANCES], in kilometres. *)
Definition DISTANCES : gmap (string * string) Z :=
  list_to_map
    [(("Hà Nội", "Hồ Chí Minh"), 1700);
     (("Hà Nội", "Đà Nẵng"), 770);
     (("Hà Nội", "Huế"), 660);
     (("Hà Nội", "Nha Trang"), 1280);
     (("Hà Nội", "Đà Lạt"), 1500);
     (("Hà Nội", "Hội An"), 790);
     (("Hà Nội", "Phú Quốc"), 1900);
     (("Hà Nội", "Cần Thơ"), 1780);
     (("Hà Nội", "Vũng Tàu"), 1670);
     (("Hà Nội", "Đồng Nai"), 1680);
     (("Hà Nội", "Binh Duong"), 1690);
     (("Hồ Chí Minh", "Đà Nẵng"), 970);
     (("Hồ Chí Minh", "Huế"), 1090);
     (("Hồ Chí Minh", "Nha Trang"), 450);
     (("Hồ Chí Minh", "Đà Lạt"), 310);
     (("Hồ Chí Minh", "Hội An"), 920);
     (("Hồ Chí Minh", "Phú Quốc"), 340);
     (("Hồ Chí Minh", "Cần Thơ"), 170);
     (("Hồ Chí Minh", "Vũng Tàu"), 125);
     (("Hồ Chí Minh", "Đồng Nai"), 50);
     (("Hồ Chí Minh", "Binh Duong"), 30);
     (("Đà Nẵng", "Huế"), 100);
     (("Đà Nẵng", "Hội An"), 30);
     (("Đà Nẵng", "Nha Trang"), 540)].

(** [CITY_ALIASES] *)
Definition CITY_ALIASES : gmap string string :=
  list_to_map
    [("hanoi", "Hà Nội"); ("hà nội", "Hà Nội"); ("ha noi", "Hà Nội");
     ("hn", "Hà Nội");
     ("ho chi minh", "Hồ Chí Minh"); ("hồ chí minh", "Hồ Chí Minh");
     ("tp hcm", "Hồ Chí Minh"); ("tp.hcm", "Hồ Chí Minh");
     ("tphcm", "Hồ Chí Minh"); ("hcm", "Hồ Chí Minh");
     ("sài gòn", "Hồ Chí Minh"); ("saigon", "Hồ Chí Minh");
     ("sg", "Hồ Chí Minh");
     ("da nang", "Đà Nẵng"); ("đà nẵng", "Đà Nẵng"); ("đn", "Đà Nẵng");
     ("hue", "Huế"); ("huế", "Huế");
     ("nha trang", "Nha Trang");
     ("da lat", "Đà Lạt"); ("đà lạt", "Đà Lạt"); ("dalat", "Đà Lạt");
     ("hoi an", "Hội An"); ("hội an", "Hội An");
     ("phu quoc", "Phú Quốc"); ("phú quốc", "Phú Quốc");
     ("can tho", "Cần Thơ"); ("cần thơ", "Cần Thơ");
     ("vung tau", "Vũng Tàu"); ("vũng tàu", "Vũng Tàu");
     ("dong nai", "Đồng Nai"); ("đồng nai", "Đồng Nai");
     ("binh duong", "Binh Duong"); ("bình dương", "Binh Duong")].

(** Python's [x or y] on two results of [dict.get]: [None] and [0] are
    false. *)
Definition py_or (x y : option Z) : option Z :=
  match x with
  | Some v => if bool_decide (v = 0) then y else Some v
  | None => y
  end.

Section Cities.
(** [lower s] is [s.lower()] and [strip s] is [s.strip()]. *)
Variable lower : string → string.
Variable strip : string → string.

(** [normalize_city_name] *)
Definition normalize_city_name (city : string) : string :=
  if bool_decide (city = "") then city
  else
    let city_lower := strip (lower city) in
    default (strip city) (CITY_ALIASES !! city_lower).

(** [get_distance] *)
Definition get_distance (city1 city2 : string) : option Z :=
  let c1 := normalize_city_name city1 in
  let c2 := normalize_city_name city2 in
  if bool_decide (c1 = c2) then Some 0
  else py_or (DISTANCES !! (c1, c2)) (DISTANCES !! (c2, c1)).

End Cities.
End Transport.

(** * Properties *)

(** ** The cache tables *)

Section DualDbFacts.
Import DualDb.
Context {Json : Type}.
Variable dumps : Json → string.
Variable loads : string → Json.
Variable md5 : string → string.

Lemma get_api_cache_hit db key r now :
  api_cache db !! key = Some r → now < api_expires_at r →
  get_api_cache loads db key now =
    (Some (loads (response_data r)),
     CacheDb (<[key := api_hit r]> (api_cache db)) (web_cache db)).
Proof.
  intros Hk Hlt. unfold get_api_cache. rewrite Hk.
  by rewrite bool_decide_eq_true_2.
Qed.

Lemma get_api_cache_expired db key r now :
  api_cache db !! key = Some r → api_expires_at r ≤ now →
  get_api_cache loads db key now = (None, db).
Proof.
  intros Hk Hle. unfold get_api_cache. rewrite Hk.
  rewrite bool_decide_eq_false_2; [done | lia].
Qed.

Lemma get_api_cache_absent db key now :
  api_cache db !! key = None → get_api_cache loads db key now = (None, db).
Proof. intros Hk. unfold get_api_cache. by rewrite Hk. Qed.

Lemma get_web_cache_hit db u r now :
  web_cache db !! md5 u = Some r → now < web_expires_at r →
  get_web_cache md5 db u now =
    (Some (content r),
     CacheDb (api_cache db) (<[md5 u := web_hit r]> (web_cache db))).
Proof.
  intros Hk Hlt. unfold get_web_cache. rewrite Hk.
  by rewrite bool_decide_eq_true_2.
Qed.

Lemma get_web_cache_expired db u r now :
  web_cache db !! md5 u = Some r → web_expires_at r ≤ now →
  get_web_cache md5 db u now = (None, db).
Proof.
  intros Hk Hle. unfold get_web_cache. rewrite Hk.
  rewrite bool_decide_eq_false_2; [done | lia].
Qed.

(** A hit is exactly a returned value. *)
Lemma get_api_cache_Some db key now v :
  (get_api_cache loads db key now).1 = Some v →
  ∃ r, api_cache db !! key = Some r ∧ now < api_expires_at r ∧
       v = loads (response_data r).
Proof.
  unfold get_api_cache. destruct (api_cache db !! key) as [r|]; [|done].
  case_bool_decide; [|done]. simpl. intros [= <-]. eauto.
Qed.

Lemma get_api_cache_None db key now :
  (get_api_cache loads db key now).1 = None →
  (get_api_cache loads db key now).2 = db.
Proof.
  unfold get_api_cache. destruct (api_cache db !! key) as [r|]; [|done].
  by case_bool_decide.
Qed.

End DualDbFacts.

Section CollectorCacheFacts.
Import Eff ApiCollector.
Context {Json Params : Type}.
Variable dumps : Json → string.
Variable loads : string → Json.
Variable E : @env Json Params.

Lemma get_cached_response_valid w key r :
  read_fails E = false →
  cache w !! key = Some r → clock w < expires_at r →
  get_cached_response loads E key w = (Returned (Some (loads (response_data r))), w).
Proof.
  intros Hr Hk Hlt. unfold get_cached_response. rewrite Hr.
  unfold bind, gets, ret, select_valid. rewrite Hk.
  by rewrite bool_decide_eq_true_2.
Qed.

Lemma get_cached_response_expired w key r :
  read_fails E = false →
  cache w !! key = Some r → expires_at r ≤ clock w →
  get_cached_response loads E key w = (Returned None, w).
Proof.
  intros Hr Hk Hle. unfold get_cached_response. rewrite Hr.
  unfold bind, gets, ret, select_valid. rewrite Hk.
  rewrite bool_decide_eq_false_2; [done | lia].
Qed.

Lemma get_cached_response_absent w key :
  read_fails E = false → cache w !! key = None →
  get_cached_response loads E key w = (Returned None, w).
Proof.
  intros Hr Hk. unfold get_cached_response. rewrite Hr.
  unfold bind, gets, ret, select_valid. by rewrite Hk.
Qed.

Lemma cache_response_ok w key api ep v hours :
  write_fails E = false →
  cache_response dumps E key api ep v hours w =
    (Returned tt,
     set_cache (<[key := Row api ep (dumps v) (clock w)
                             (clock w + timedelta_hours hours)]> (cache w)) w).
Proof. intros Hw. unfold cache_response. by rewrite Hw. Qed.

Lemma get_cached_response_fails w key :
  read_fails E = true →
  get_cached_response loads E key w = (Raised SqliteError, w).
Proof. intros Hr. unfold get_cached_response. by rewrite Hr. Qed.

Lemma cache_response_fails w key api ep v hours :
  write_fails E = true →
  cache_response dumps E key api ep v hours w = (Raised SqliteError, w).
Proof. intros Hw. unfold cache_response. by rewrite Hw. Qed.

End CollectorCacheFacts.

Section ScraperCacheFacts.
Import Eff WebScraper.
Variable E : env.

Lemma get_cached_content_valid w key r :
  read_fails E = false →
  cache w !! key = Some r → clock w < expires_at r →
  get_cached_content E key w = (Returned (Some (content r)), w).
Proof.
  intros Hr Hk Hlt. unfold get_cached_content. rewrite Hr.
  unfold bind, gets, ret, select_valid. rewrite Hk.
  by rewrite bool_decide_eq_true_2.
Qed.

Lemma get_cached_content_expired w key r :
  read_fails E = false →
  cache w !! key = Some r → expires_at r ≤ clock w →
  get_cached_content E key w = (Returned None, w).
Proof.
  intros Hr Hk Hle. unfold get_cached_content. rewrite Hr.
  unfold bind, gets, ret, select_valid. rewrite Hk.
  rewrite bool_decide_eq_false_2; [done | lia].
Qed.

Lemma get_cached_content_absent w key :
  read_fails E = false → cache w !! key = None →
  get_cached_content E key w = (Returned None, w).
Proof.
  intros Hr Hk. unfold get_cached_content. rewrite Hr.
  unfold bind, gets, ret, select_valid. by rewrite Hk.
Qed.

Lemma cache_content_ok w key u c hours :
  write_fails E = false →
  cache_content E key u c hours w =
    (Returned tt,
     World (<[key := Row u c (clock w) (clock w + timedelta_hours hours)]>
              (cache w))
           (clock w) (http_calls w) (slept w)).
Proof. intros Hw. unfold cache_content. by rewrite Hw. Qed.

Lemma get_cached_content_fails w key :
  read_fails E = true →
  get_cached_content E key w = (Raised SqliteError, w).
Proof. intros Hr. unfold get_cached_content. by rewrite Hr. Qed.

Lemma cache_content_fails w key u c hours :
  write_fails E = true →
  cache_content E key u c hours w = (Raised SqliteError, w).
Proof. intros Hw. unfold cache_content. by rewrite Hw. Qed.

End ScraperCacheFacts.

(** C2.  In each cache table ([api_cache] and [web_cache] of [cache.db],
    the collector's [api_cache], the scraper's [web_cache]), writing a value
    under a key and then reading that key at a time strictly before the
    entry's [expires_at] returns exactly the value written; and reading an
    entry at or after its [expires_at] is a miss.  ([loads] undoes [dumps],
    as [json.loads] does for [json.dumps]; the adapters' cache file is
    readable and writable.) *)
Theorem set_then_get_before_expiry
    {Json : Type} (dumps : Json → string) (loads : string → Json)
    (md5 : string → string)
    (Hjson : ∀ v, loads (dumps v) = v) :
  (∀ db key api ep ps v hours t0 t0' t,
      t < t0 + timedelta_hours hours →
      (DualDb.get_api_cache loads
         (DualDb.set_api_cache dumps db key api ep ps v hours t0 t0')
         key t).1 = Some v) ∧
  (∀ db key r t,
      DualDb.api_cache db !! key = Some r → DualDb.api_expires_at r ≤ t →
      (DualDb.get_api_cache loads db key t).1 = None) ∧
  (∀ db u c hours t0 t0' t,
      t < t0 + timedelta_hours hours →
      (DualDb.get_web_cache md5
         (DualDb.set_web_cache md5 db u c hours t0 t0') u t).1 = Some c) ∧
  (∀ db u r t,
      DualDb.web_cache db !! md5 u = Some r → DualDb.web_expires_at r ≤ t →
      (DualDb.get_web_cache md5 db u t).1 = None) ∧
  (∀ (Params : Type) (E : @ApiCollector.env Json Params) w key api ep v hours t,
      ApiCollector.read_fails E = false →
      ApiCollector.write_fails E = false →
      t < ApiCollector.clock w + timedelta_hours hours →
      (ApiCollector.get_cached_response loads E key
         (ApiCollector.at_time t
            (ApiCollector.cache_response dumps E key api ep v hours w).2)).1
      = Eff.Returned (Some v)) ∧
  (∀ (Params : Type) (E : @ApiCollector.env Json Params) w key r,
      ApiCollector.read_fails E = false →
      ApiCollector.cache w !! key = Some r →
      ApiCollector.expires_at r ≤ ApiCollector.clock w →
      (ApiCollector.get_cached_response loads E key w).1 = Eff.Returned None) ∧
  (∀ (E : WebScraper.env) w key u c hours t,
      WebScraper.read_fails E = false →
      WebScraper.write_fails E = false →
      t < WebScraper.clock w + timedelta_hours hours →
      (WebScraper.get_cached_content E key
         (WebScraper.at_time t
            (WebScraper.cache_content E key u c hours w).2)).1
      = Eff.Returned (Some c)) ∧
  (∀ (E : WebScraper.env) w key r,
      WebScraper.read_fails E = false →
      WebScraper.cache w !! key = Some r →
      WebScraper.expires_at r ≤ WebScraper.clock w →
      (WebScraper.get_cached_content E key w).1 = Eff.Returned None).
Proof.
  repeat split.
  - intros db key api ep ps v hours t0 t0' t Ht.
    unfold DualDb.get_api_cache, DualDb.set_api_cache. simpl.
    rewrite lookup_insert_eq. simpl.
    rewrite bool_decide_eq_true_2 by done. simpl. by rewrite Hjson.
  - intros db key r t Hk Hle. by erewrite get_api_cache_expired.
  - intros db u c hours t0 t0' t Ht.
    unfold DualDb.get_web_cache, DualDb.set_web_cache. simpl.
    rewrite lookup_insert_eq. simpl.
    by rewrite bool_decide_eq_true_2 by done.
  - intros db u r t Hk Hle. by erewrite get_web_cache_expired.
  - intros Params E w key api ep v hours t Hr Hw Ht.
    rewrite cache_response_ok by done.
    unfold ApiCollector.get_cached_response. rewrite Hr.
    unfold Eff.bind, Eff.gets, Eff.ret, ApiCollector.select_valid. simpl.
    rewrite lookup_insert_eq. simpl.
    rewrite bool_decide_eq_true_2 by done. simpl. by rewrite Hjson.
  - intros Params E w key r Hr Hk Hle.
    by erewrite get_cached_response_expired.
  - intros E w key u c hours t Hr Hw Ht.
    rewrite cache_content_ok by done.
    unfold WebScraper.get_cached_content. rewrite Hr.
    unfold Eff.bind, Eff.gets, Eff.ret, WebScraper.select_valid. simpl.
    rewrite lookup_insert_eq. simpl.
    by rewrite bool_decide_eq_true_2 by done.
  - intros E w key r Hr Hk Hle.
    by erewrite get_cached_content_expired.
Qed.

(** C10.  A hit of [get_api_cache] adds one to the [hit_count] of the row
    looked up and changes nothing else: the row keeps its value,
    [created_at], [expires_at] (and the other columns), every other row of
    [api_cache] and the whole of [web_cache] stay as they were.  A miss (the
    key absent or its row expired) leaves the database unchanged. *)
Theorem get_api_cache_frame
    {Json : Type} (loads : string → Json)
    (db : DualDb.cache_db) (key : string) (now : Z) :
  let out := DualDb.get_api_cache loads db key now in
  (∀ v, out.1 = Some v →
     ∃ r r', DualDb.api_cache db !! key = Some r ∧
       now < DualDb.api_expires_at r ∧
       DualDb.api_cache out.2 !! key = Some r' ∧
       DualDb.api_hit_count r' = DualDb.api_hit_count r + 1 ∧
       DualDb.response_data r' = DualDb.response_data r ∧
       DualDb.api_created_at r' = DualDb.api_created_at r ∧
       DualDb.api_expires_at r' = DualDb.api_expires_at r ∧
       DualDb.api_name r' = DualDb.api_name r ∧
       DualDb.endpoint r' = DualDb.endpoint r ∧
       DualDb.params r' = DualDb.params r ∧
       (∀ k, k ≠ key →
          DualDb.api_cache out.2 !! k = DualDb.api_cache db !! k) ∧
       DualDb.web_cache out.2 = DualDb.web_cache db) ∧
  (out.1 = None →
     out.2 = db ∧
     (DualDb.api_cache db !! key = None ∨
      ∃ r, DualDb.api_cache db !! key = Some r ∧
           DualDb.api_expires_at r ≤ now)) ∧
  (∀ r, DualDb.api_cache db !! key = Some r → now < DualDb.api_expires_at r →
     out.1 = Some (loads (DualDb.response_data r))).
Proof.
  intros out. subst out. split; [|split].
  - intros v Hv.
    destruct (get_api_cache_Some _ _ _ _ _ Hv) as (r & Hk & Hlt & ->).
    rewrite (get_api_cache_hit loads db key r now Hk Hlt). simpl.
    exists r, (DualDb.api_hit r). rewrite lookup_insert_eq.
    repeat split; try done.
    intros k Hne. by rewrite lookup_insert_ne.
  - intros Hnone. split; [by apply get_api_cache_None|].
    revert Hnone. unfold DualDb.get_api_cache.
    destruct (DualDb.api_cache db !! key) as [r|]; [|by left].
    case_bool_decide; [done|]. intros _. right. exists r. split; [done|lia].
  - intros r Hk Hlt. by rewrite (get_api_cache_hit loads db key r now Hk Hlt).
Qed.

Lemma set_then_get_before_expiry_witness :
  (DualDb.get_api_cache (λ s : string, s)
     (DualDb.set_api_cache (λ s : string, s) DualDb.empty_db
        "k" "openweather" "weather" "{}" "{}" 6 0 1)
     "k" 21599999999).1 = Some "{}" ∧
  (DualDb.get_api_cache (λ s : string, s)
     (DualDb.set_api_cache (λ s : string, s) DualDb.empty_db
        "k" "openweather" "weather" "{}" "{}" 6 0 1)
     "k" 21600000000).1 = None.
Proof.
  destruct (set_then_get_before_expiry
              (λ s : string, s) (λ s : string, s) (λ s : string, s)
              (λ v, eq_refl)) as (Hhit & Hmiss & _).
  split.
  - apply Hhit. unfold timedelta_hours. lia.
  - eapply Hmiss.
    + simpl. apply lookup_insert_eq.
    + simpl. unfold timedelta_hours. lia.
Defined.

(** ** Eviction *)

Section EvictionFacts.
Import DualDb.

(** [clear_expired_cache] deletes the rows with [expires_at < now], keeps
    the others, and reports how many rows it deleted. *)
Lemma clear_expired_cache_rows db now now' key :
  api_cache (clear_expired_cache db now now').2 !! key =
    (r ← api_cache db !! key;
     if bool_decide (api_expires_at r < now) then None else Some r) ∧
  web_cache (clear_expired_cache db now now').2 !! key =
    (r ← web_cache db !! key;
     if bool_decide (web_expires_at r < now') then None else Some r).
Proof.
  unfold clear_expired_cache. simpl. split.
  - rewrite map_lookup_filter.
    destruct (api_cache db !! key) as [r|]; simpl; [|done].
    case_bool_decide.
    + by rewrite option_guard_False by (simpl; tauto).
    + by rewrite option_guard_True by done.
  - rewrite map_lookup_filter.
    destruct (web_cache db !! key) as [r|]; simpl; [|done].
    case_bool_decide.
    + by rewrite option_guard_False by (simpl; tauto).
    + by rewrite option_guard_True by done.
Qed.

Lemma clear_expired_cache_count db now now' :
  let out := clear_expired_cache db now now' in
  (api_cache_deleted out.1 + size (api_cache out.2) = size (api_cache db))%nat ∧
  (web_cache_deleted out.1 + size (web_cache out.2) = size (web_cache db))%nat ∧
  total_deleted out.1 = (api_cache_deleted out.1 + web_cache_deleted out.1)%nat.
Proof.
  unfold clear_expired_cache. simpl. repeat split.
  - rewrite <-(map_size_disj_union _ _ (map_disjoint_filter_complement _ _)).
    by rewrite map_filter_union_complement.
  - rewrite <-(map_size_disj_union _ _ (map_disjoint_filter_complement _ _)).
    by rewrite map_filter_union_complement.
Qed.

End EvictionFacts.

(** C7.  At the instant [now = expires_at] the eviction does not remove the
    entry: [clear_expired_cache] deletes the rows with [expires_at < now]
    only.  Here the row ["k"] expires at [100]; at time [100] the eviction
    reports no deletion and leaves the row in place, while [get_api_cache]
    at the same time already answers with a miss; one microsecond later the
    row is deleted and counted.  The collector's and the scraper's own
    [clear_expired_cache] compare in the same way. *)
Theorem clear_expired_cache_keeps_row_expiring_now :
  let r := DualDb.ApiRow "openweather" "weather" "{}" "{}" 0 100 0 in
  let db := DualDb.CacheDb {[ "k" := r ]} ∅ in
  DualDb.clear_expired_cache db 100 100 = (DualDb.Deleted 0 0 0, db) ∧
  DualDb.api_cache (DualDb.clear_expired_cache db 100 100).2 !! "k" = Some r ∧
  (DualDb.get_api_cache (λ s : string, s) db "k" 100).1 = None ∧
  DualDb.clear_expired_cache db 101 101 =
    (DualDb.Deleted 1 0 1, DualDb.empty_db) ∧
  ApiCollector.delete_expired
    {[ "k" := ApiCollector.Row "openweather" "weather" "{}" 0 100 ]} 100
    = (0%nat, {[ "k" := ApiCollector.Row "openweather" "weather" "{}" 0 100 ]}) ∧
  WebScraper.delete_expired
    {[ "k" := WebScraper.Row "https://vietnam.travel/" "<html></html>" 0 100 ]}
    100
    = (0%nat,
       {[ "k" := WebScraper.Row "https://vietnam.travel/" "<html></html>" 0 100 ]}).
Proof. vm_compute. repeat split; reflexivity. Qed.

(** ** The cache key *)

Section CacheKeyFacts.
Import CacheKey.

Global Instance item_le_trans : Transitive item_le.
Proof. intros x y z. unfold item_le. apply transitivity. Qed.

Global Instance item_le_total : Total item_le.
Proof. intros x y. unfold item_le. apply total, _. Qed.

(** With distinct keys, the sorted list of items depends on the set of
    items only. *)
Lemma sort_items_permutation (l1 l2 : list (string * string)) :
  NoDup l1.*1 → l1 ≡ₚ l2 → sort_items l1 = sort_items l2.
Proof.
  intros Hnd Hperm. unfold sort_items.
  apply (Sorted_unique_strong item_le).
  - intros [k1 v1] [k2 v2] H1 H2 Hle1 Hle2.
    rewrite merge_sort_Permutation in H1.
    rewrite merge_sort_Permutation, <-Hperm in H2.
    unfold item_le in *. simpl in *.
    assert (k1 = k2) as -> by (by apply (anti_symm String.le)).
    f_equal.
    pose proof (elem_of_list_to_map_1 (M := gmap string) l1 k2 v1 Hnd H1) as E1.
    pose proof (elem_of_list_to_map_1 (M := gmap string) l1 k2 v2 Hnd H2) as E2.
    congruence.
  - apply (Sorted_merge_sort item_le).
  - apply (Sorted_merge_sort item_le).
  - by rewrite !merge_sort_Permutation.
Qed.

(** Induction over documents, through their lists and dicts. *)
Fixpoint json_nested_ind (P : json → Prop)
    (Hnull : P JNull) (Hbool : ∀ b, P (JBool b)) (Hint : ∀ z, P (JInt z))
    (Hstr : ∀ s, P (JStr s))
    (Hlist : ∀ l, Forall P l → P (JList l))
    (Hdict : ∀ items, Forall (λ kv : string * json, P kv.2) items →
                      P (JDict items))
    (j : json) : P j :=
  match j with
  | JNull => Hnull
  | JBool b => Hbool b
  | JInt z => Hint z
  | JStr s => Hstr s
  | JList l =>
      Hlist l
        ((fix go (l : list json) : Forall P l :=
            match l with
            | [] => @List.Forall_nil _ P
            | x :: t =>
                @List.Forall_cons _ P x t
                  (json_nested_ind P Hnull Hbool Hint Hstr Hlist Hdict x)
                  (go t)
            end) l)
  | JDict items =>
      Hdict items
        ((fix go (l : list (string * json))
            : Forall (λ kv : string * json, P kv.2) l :=
            match l with
            | [] => @List.Forall_nil _ _
            | kv :: t =>
                @List.Forall_cons _ (λ kv : string * json, P kv.2) kv t
                  (json_nested_ind P Hnull Hbool Hint Hstr Hlist Hdict kv.2)
                  (go t)
            end) items)
  end.

Lemma distinct_keys_list l :
  distinct_keys (JList l) ↔ Forall distinct_keys l.
Proof.
  simpl. induction l as [|x l IH]; simpl.
  - split; [constructor|done].
  - rewrite Forall_cons, IH. done.
Qed.

Lemma distinct_keys_dict items :
  distinct_keys (JDict items) ↔
  NoDup items.*1 ∧ Forall (λ kv : string * json, distinct_keys kv.2) items.
Proof.
  simpl. apply and_iff_compat_l.
  induction items as [|[k v] items IH]; simpl.
  - split; [constructor|done].
  - rewrite Forall_cons, IH. done.
Qed.

Section DumpsFacts.
Variable json_string : string → string.
Variable json_int : Z → string.

#[local] Abbreviation dumps := (dumps_sorted json_string json_int).

#[local] Abbreviation rendered := (rendered json_string json_int).

Lemma dumps_dict items :
  dumps (JDict items) =
    ("{" +:+ join ", " (map (render_item json_string)
                          (sort_items (rendered <$> items))) +:+ "}")%string.
Proof. reflexivity. Qed.

Lemma dumps_list l :
  dumps (JList l) = ("[" +:+ join ", " (dumps <$> l) +:+ "]")%string.
Proof. reflexivity. Qed.

(** [json.dumps(_, sort_keys=True)] gives the same text for documents that
    differ in the order of their dict items only. *)
Lemma dumps_sorted_equiv j1 :
  ∀ j2, json_equiv j1 j2 → distinct_keys j1 → dumps j1 = dumps j2.
Proof.
  induction j1 as [ | b | z | s | l IH | items IH] using json_nested_ind;
    intros j2 Heq Hwf; inversion Heq as [ | | | | l1 l2 HF | i1 i i2 Hp HF];
    subst; try done.
  - rewrite !dumps_list.
    apply distinct_keys_list in Hwf.
    assert (dumps <$> l = dumps <$> l2) as ->; [|done].
    clear Heq. induction HF as [|x y l l2 Hxy HF IHF]; [done|].
    apply Forall_cons in IH as [IHx IHl].
    apply Forall_cons in Hwf as [Hx Hl]. csimpl. f_equal; auto.
  - rewrite !dumps_dict.
    apply distinct_keys_dict in Hwf as [Hnd Hwf].
    rewrite Hp in IH, Hwf.
    assert (sort_items (rendered <$> items) = sort_items (rendered <$> i2))
      as ->; [|done].
    assert (rendered <$> i = rendered <$> i2) as <-.
    { clear Heq Hp. induction HF as [|[k1 v1] [k2 v2] l l2 [Hk Hv] HF IHF];
        [done|].
      apply Forall_cons in IH as [IHx IHl].
      apply Forall_cons in Hwf as [Hx Hl]. simpl in *. subst k2. csimpl.
      f_equal; [by rewrite (IHx v2)|auto]. }
    apply sort_items_permutation; [|by apply fmap_Permutation].
    rewrite <-list_fmap_compose.
    erewrite list_fmap_ext; [exact Hnd|]. by intros ? [? ?] ?.
Qed.

(** The cache key is the same for parameter mappings that differ in the
    order of their items, at any depth. *)
Lemma generate_cache_key_up_to_order md5 api_name endpoint p1 p2 :
  json_equiv (JDict p1) (JDict p2) → distinct_keys (JDict p1) →
  generate_cache_key json_string json_int md5 api_name endpoint p1 =
  generate_cache_key json_string json_int md5 api_name endpoint p2.
Proof.
  intros Heq Hwf. unfold generate_cache_key.
  by rewrite (dumps_sorted_equiv _ _ Heq Hwf).
Qed.

End DumpsFacts.

End CacheKeyFacts.

(** C3.  [_generate_cache_key] does not depend on the order in which the
    parameter mapping enumerates its keys: two mappings (with distinct keys
    each, as in a [dict]) that are equal as maps give the same cache key, for
    every [api_name] and [endpoint]. *)
Theorem generate_cache_key_order_invariant
    (json_string : string → string) (json_int : Z → string)
    (md5 : string → string)
    (api_name endpoint : string) (p1 p2 : list (string * CacheKey.json))
    (Hkeys1 : NoDup p1.*1) (Hkeys2 : NoDup p2.*1)
    (Hsame : (list_to_map p1 : gmap string CacheKey.json) = list_to_map p2) :
  CacheKey.generate_cache_key json_string json_int md5 api_name endpoint p1 =
  CacheKey.generate_cache_key json_string json_int md5 api_name endpoint p2.
Proof.
  assert (p1 ≡ₚ p2) as Hperm by (by apply list_to_map_inj).
  set (f := λ kv : string * CacheKey.json,
              let '(k, v) := kv in
              (k, CacheKey.dumps_sorted json_string json_int v)).
  assert (CacheKey.sort_items (f <$> p1) = CacheKey.sort_items (f <$> p2))
    as Hsort.
  { apply sort_items_permutation.
    - rewrite <-list_fmap_compose.
      erewrite list_fmap_ext; [exact Hkeys1|]. by intros ? [? ?] ?.
    - by apply fmap_Permutation. }
  unfold CacheKey.generate_cache_key. simpl. fold f.
  change (map f p1) with (f <$> p1). change (map f p2) with (f <$> p2).
  by rewrite Hsort.
Qed.

Lemma generate_cache_key_order_invariant_witness :
  CacheKey.generate_cache_key (λ s, s) (λ _, "5000") (λ s, s)
    "google_places" "textsearch/json"
    [("query", CacheKey.JStr "hotels in Hue");
     ("type", CacheKey.JStr "lodging");
     ("radius", CacheKey.JInt 5000)] =
  CacheKey.generate_cache_key (λ s, s) (λ _, "5000") (λ s, s)
    "google_places" "textsearch/json"
    [("radius", CacheKey.JInt 5000);
     ("type", CacheKey.JStr "lodging");
     ("query", CacheKey.JStr "hotels in Hue")].
Proof.
  apply generate_cache_key_order_invariant.
  - apply (bool_decide_unpack _). vm_compute. exact I.
  - apply (bool_decide_unpack _). vm_compute. exact I.
  - vm_compute. reflexivity.
Defined.

(** ** The workflow graph *)

Section WorkflowFacts.
Import Workflow.
Context {Data : Type}.
Variable body : stage → @State Data → @result Data.

#[local] Abbreviation node := (node body).
#[local] Abbreviation step := (step body).
#[local] Abbreviation complete := (complete body).
#[local] Abbreviation writes := (writes body).

(** *** The node functions *)

Lemma node_ok s st v :
  body s st = Value v →
  get_steps (node s st) = get_steps st ++ [name s] ∧
  errors (node s st) = errors st ∧
  fields (node s st) = <[out_field s := v]> (fields st).
Proof. intros Hb. unfold Workflow.node. by rewrite Hb. Qed.

Lemma node_raise s st msg :
  body s st = Exception msg →
  get_errors (node s st) = get_errors st ++ [error_entry s msg] ∧
  steps_completed (node s st) = steps_completed st ∧
  fields (node s st) = fields st.
Proof. intros Hb. unfold Workflow.node. by rewrite Hb. Qed.

Lemma node_appends s st :
  (get_steps (node s st) = get_steps st ++ [name s] ∧
   errors (node s st) = errors st ∧ raises body s st = false) ∨
  (∃ msg, get_errors (node s st) = get_errors st ++ [error_entry s msg] ∧
          steps_completed (node s st) = steps_completed st ∧
          raises body s st = true).
Proof.
  unfold raises. destruct (body s st) as [v|msg] eqn:Hb.
  - left. by destruct (node_ok s st v Hb) as (? & ? & _).
  - right. exists msg. by destruct (node_raise s st msg Hb) as (? & ? & _).
Qed.

Lemma node_prefix s st :
  get_steps st `prefix_of` get_steps (node s st) ∧
  get_errors st `prefix_of` get_errors (node s st).
Proof.
  destruct (node_appends s st) as [(Hs & He & _)|(msg & He & Hs & _)].
  - split; [rewrite Hs; by apply prefix_app_r|].
    unfold get_errors. by rewrite He.
  - split; [unfold get_steps; by rewrite Hs|].
    rewrite He. by apply prefix_app_r.
Qed.

(** A node function is the merge of its own assignments into the state it
    was given: completing a stage on the shared state runs the node
    function on it. *)
Lemma node_merge s st : node s st = merge s (writes s st) st.
Proof. unfold Workflow.node, Workflow.writes. by destruct (body s st). Qed.

Lemma complete_shared s rs :
  state (complete s (state rs) rs) = node s (state rs).
Proof. simpl. by rewrite node_merge. Qed.

(** *** Steps of the executor *)

Lemma all_stages_complete s : s ∈ all_stages.
Proof. destruct s; unfold all_stages; set_solver. Qed.

Lemma all_terminal_spec (rs : @run_state Data) :
  forallb (λ s, terminal (stat rs s)) all_stages = true ↔
  ∀ s, terminal (stat rs s) = true.
Proof.
  rewrite forallb_forall. split.
  - intros H s. apply H, list_elem_of_In, all_stages_complete.
  - intros H s _. apply H.
Qed.

(** Some stage can always move until all of them have terminated: the
    graph has no cycle, so the first stage of [all_stages] that has not
    terminated is running or ready. *)
Lemma progress (rs : @run_state Data) :
  forallb (λ s, terminal (stat rs s)) all_stages = false →
  ∃ rs', step rs rs'.
Proof.
  intros Hall.
  assert (∀ s, terminal (stat rs s) = false →
               forallb (λ u, terminal (stat rs u)) (upstream s) = true →
               ∃ rs', step rs rs') as Hmove.
  { intros s Hs Hup. destruct (stat rs s) eqn:Hstat; try done.
    - eexists. apply (step_dispatch _ rs s). unfold ready.
      by rewrite Hstat, Hup.
    - eexists. apply (step_complete _ rs s (snapshot rs s)); [done|by left]. }
  destruct (terminal (stat rs api_collector)) eqn:H1;
    [|by apply (Hmove api_collector)].
  destruct (terminal (stat rs web_scraper)) eqn:H2;
    [|apply (Hmove web_scraper); [done|]; simpl; by rewrite H1].
  destruct (terminal (stat rs data_processor)) eqn:H3;
    [|apply (Hmove data_processor); [done|]; simpl; by rewrite H2].
  destruct (terminal (stat rs recommendation)) eqn:H4;
    [|apply (Hmove recommendation); [done|]; simpl; by rewrite H3].
  destruct (terminal (stat rs sentiment_analyzer)) eqn:H5;
    [|apply (Hmove sentiment_analyzer); [done|]; simpl; by rewrite H3].
  destruct (terminal (stat rs similarity_engine)) eqn:H6;
    [|apply (Hmove similarity_engine); [done|]; simpl; by rewrite H3].
  destruct (terminal (stat rs price_predictor)) eqn:H7;
    [|apply (Hmove price_predictor); [done|]; simpl; by rewrite H3].
  destruct (terminal (stat rs planner)) eqn:H8;
    [|apply (Hmove planner); [done|]; simpl; by rewrite H4, H5, H6, H7].
  destruct (terminal (stat rs researcher)) eqn:H9;
    [|apply (Hmove researcher); [done|]; simpl; by rewrite H8].
  destruct (terminal (stat rs analytics_engine)) eqn:H10;
    [|apply (Hmove analytics_engine); [done|]; simpl; by rewrite H9].
  simpl in Hall. by rewrite H1, H2, H3, H4, H5, H6, H7, H8, H9, H10 in Hall.
Qed.

Lemma all_terminal_finished (rs : @run_state Data) :
  forallb (λ s, terminal (stat rs s)) all_stages = true → finished body rs.
Proof.
  rewrite all_terminal_spec. intros Hall rs' Hstep.
  destruct Hstep as [rs0 s Hready|rs0 s seen Hrun _].
  - unfold ready in Hready. apply andb_prop in Hready as [Hw _].
    apply bool_decide_eq_true in Hw. specialize (Hall s). by rewrite Hw in Hall.
  - specialize (Hall s). by rewrite Hrun in Hall.
Qed.

Lemma finished_all_terminal (rs : @run_state Data) :
  finished body rs → forallb (λ s, terminal (stat rs s)) all_stages = true.
Proof.
  intros Hfin.
  destruct (forallb (λ s, terminal (stat rs s)) all_stages) eqn:Hall; [done|].
  destruct (progress rs Hall) as [rs' Hstep]. by destruct (Hfin rs').
Qed.

Lemma finished_completed (rs : @run_state Data) :
  finished body rs → status_of rs = Completed.
Proof.
  intros Hfin. unfold status_of. by rewrite finished_all_terminal.
Qed.

(** Every step does one unit of the work that is left. *)
Lemma step_work_left rs rs' :
  step rs rs' → work_left rs = S (work_left rs').
Proof.
  intros [rs0 s Hready|rs0 s seen Hrun _].
  - unfold ready in Hready. apply andb_prop in Hready as [Hw _].
    apply bool_decide_eq_true in Hw.
    unfold work_left, dispatch, set_stat; destruct s; simpl;
      rewrite Hw; simpl; lia.
  - unfold work_left, Workflow.complete, set_stat.
    destruct (raises body s seen); destruct s; simpl;
      rewrite Hrun; simpl; lia.
Qed.

(** Every execution can be continued to a finished one. *)
Lemma terminates rs :
  ∃ rs', rtc step rs rs' ∧ finished body rs'.
Proof.
  remember (work_left rs) as n eqn:Hn. revert rs Hn.
  induction n as [n IH] using lt_wf_ind. intros rs ->.
  destruct (forallb (λ s, terminal (stat rs s)) all_stages) eqn:Hall.
  - exists rs. split; [done|by apply all_terminal_finished].
  - destruct (progress rs Hall) as [rs1 Hstep].
    pose proof (step_work_left _ _ Hstep) as Hw.
    destruct (IH (work_left rs1) ltac:(lia) rs1 eq_refl) as (rs' & Hrtc & Hfin).
    exists rs'. split; [by eapply rtc_l|done].
Qed.

(** *** What holds of every reachable state *)

Lemma invariant_init (st0 : @State Data) : invariant (init st0).
Proof.
  split; simpl; try done.
  - intros s. split; [set_solver|done].
  - intros s. split; [done|set_solver].
  - constructor.
Qed.

Lemma lookup_snoc_Some {A} (l : list A) (x y : A) i :
  (l ++ [x]) !! i = Some y →
  l !! i = Some y ∨ (i = length l ∧ y = x).
Proof.
  rewrite lookup_app_Some. intros [?|[Hle Hx]]; [by left|right].
  destruct (i - length l)%nat as [|k] eqn:Hk; simpl in Hx; [|done].
  split; [lia|congruence].
Qed.

Lemma invariant_dispatch (rs : @run_state Data) s0 :
  invariant rs → ready rs s0 = true → invariant (dispatch s0 rs).
Proof.
  intros Hinv Hready. unfold ready in Hready.
  apply andb_prop in Hready as [Hw Hup]. apply bool_decide_eq_true in Hw.
  assert (Dispatch s0 ∉ events rs) as Hnew by (by apply (inv_waiting _ Hinv)).
  assert (Complete s0 ∉ events rs) as Hnot.
  { rewrite <-(inv_terminal _ Hinv), Hw. done. }
  split; simpl.
  - intros s. unfold set_stat. destruct (decide (s = s0)) as [->|Hne].
    + split; [done|]. intros H. destruct H. set_solver.
    + rewrite (inv_waiting _ Hinv).
      assert (Dispatch s ≠ Dispatch s0) by congruence. set_solver.
  - intros s. unfold set_stat. destruct (decide (s = s0)) as [->|Hne].
    + split; [done|]. set_solver.
    + rewrite (inv_terminal _ Hinv). set_solver.
  - apply NoDup_app. split; [apply (inv_nodup _ Hinv)|].
    split; [set_solver|apply NoDup_singleton].
  - intros i s Hi u Hu. apply lookup_snoc_Some in Hi as [Hi|[-> [= ->]]].
    + destruct (inv_upstream _ Hinv i s Hi u Hu) as (j & Hj & Hlook).
      exists j. split; [done|]. by apply lookup_app_l_Some.
    + rewrite forallb_forall in Hup.
      assert (terminal (stat rs u) = true) as Hu'
        by (by apply Hup, list_elem_of_In).
      apply (inv_terminal _ Hinv) in Hu'.
      apply list_elem_of_lookup in Hu' as [j Hj]. exists j.
      split; [by eapply lookup_lt_Some|by apply lookup_app_l_Some].
  - intros i s Hi. apply lookup_snoc_Some in Hi as [Hi|[_ [=]]].
    destruct (inv_dispatched _ Hinv i s Hi) as (j & Hj & Hlook).
    exists j. split; [done|]. by apply lookup_app_l_Some.
Qed.

Lemma invariant_complete (rs : @run_state Data) s0 seen :
  invariant rs → stat rs s0 = Running → invariant (complete s0 seen rs).
Proof.
  intros Hinv Hrun.
  assert (Dispatch s0 ∈ events rs) as Hdisp.
  { destruct (decide (Dispatch s0 ∈ events rs)) as [|Hn]; [done|].
    apply (inv_waiting _ Hinv) in Hn. congruence. }
  assert (Complete s0 ∉ events rs) as Hnot.
  { rewrite <-(inv_terminal _ Hinv), Hrun. done. }
  split; simpl.
  - intros s. unfold set_stat. destruct (decide (s = s0)) as [->|Hne].
    + split; [by destruct (raises body s0 seen)|]. set_solver.
    + rewrite (inv_waiting _ Hinv). set_solver.
  - intros s. unfold set_stat. destruct (decide (s = s0)) as [->|Hne].
    + split; [set_solver|]. by destruct (raises body s0 seen).
    + rewrite (inv_terminal _ Hinv).
      assert (Complete s ≠ Complete s0) by congruence. set_solver.
  - apply NoDup_app. split; [apply (inv_nodup _ Hinv)|].
    split; [set_solver|apply NoDup_singleton].
  - intros i s Hi u Hu. apply lookup_snoc_Some in Hi as [Hi|[_ [=]]].
    destruct (inv_upstream _ Hinv i s Hi u Hu) as (j & Hj & Hlook).
    exists j. split; [done|]. by apply lookup_app_l_Some.
  - intros i s Hi. apply lookup_snoc_Some in Hi as [Hi|[-> [= ->]]].
    + destruct (inv_dispatched _ Hinv i s Hi) as (j & Hj & Hlook).
      exists j. split; [done|]. by apply lookup_app_l_Some.
    + apply list_elem_of_lookup in Hdisp as [j Hj]. exists j.
      split; [by eapply lookup_lt_Some|by apply lookup_app_l_Some].
Qed.

Lemma invariant_step (rs rs' : @run_state Data) :
  invariant rs → step rs rs' → invariant rs'.
Proof.
  intros Hinv Hstep. inversion Hstep; subst;
    [by apply invariant_dispatch|by apply invariant_complete].
Qed.

Lemma invariant_reachable st0 rs :
  rtc step (init st0) rs → invariant rs.
Proof.
  revert rs. apply rtc_ind_r; [apply invariant_init|].
  intros y z _ Hstep Hy. by eapply invariant_step.
Qed.

(** A stage whose function always raises never ends [Done]. *)
Lemma failing_stage_errored st0 rs f msg :
  (∀ st, body f st = Exception msg) →
  rtc step (init st0) rs → terminal (stat rs f) = true →
  stat rs f = Errored.
Proof.
  intros Hfail Hrtc.
  assert (stat rs f ≠ Done) as Hnd; [|by destruct (stat rs f)].
  revert rs Hrtc. apply rtc_ind_r; [done|].
  intros y z _ Hstep IH.
  inversion Hstep as [rs0 s Hready|rs0 s seen Hrun Hseen]; subst; simpl;
    unfold set_stat; destruct (decide (f = s)) as [<-|]; try done.
  unfold raises. by rewrite Hfail.
Qed.

(** The two tracking sequences of the shared state only grow. *)
Lemma merge_prefix s u (st : @State Data) :
  get_steps st `prefix_of` get_steps (merge s u st) ∧
  get_errors st `prefix_of` get_errors (merge s u st).
Proof. destruct u; simpl; split; try done; by apply prefix_app_r. Qed.

Lemma tracking_reachable st0 rs :
  rtc step (init st0) rs →
  get_steps st0 `prefix_of` get_steps (state rs) ∧
  get_errors st0 `prefix_of` get_errors (state rs).
Proof.
  revert rs. apply rtc_ind_r; [done|].
  intros y z _ Hstep [IHs IHe].
  inversion Hstep as [rs0 s Hready|rs0 s seen Hrun Hseen]; subst; simpl;
    [done|].
  destruct (merge_prefix s (writes s seen) (state y)) as [Hs He].
  split; by etrans.
Qed.

(** Every stage that has terminated has left its trace in the shared
    state: its name in [steps_completed], or its entry in [errors]. *)
Lemma traces_reachable st0 rs :
  rtc step (init st0) rs →
  (∀ s, stat rs s = Errored →
        ∃ msg, error_entry s msg ∈ get_errors (state rs)) ∧
  (∀ s, stat rs s = Done → name s ∈ get_steps (state rs)).
Proof.
  revert rs. apply rtc_ind_r; [done|].
  intros y z _ Hstep [IHe IHs].
  inversion Hstep as [rs0 s Hready|rs0 s seen Hrun Hseen]; subst; simpl;
    unfold set_stat.
  - split; intros s'; destruct (decide (s' = s)); try done; auto.
  - destruct (merge_prefix s (writes s seen) (state y)) as [Hps Hpe].
    unfold Workflow.writes, raises in *.
    destruct (body s seen) as [v|msg]; simpl in *; split; intros s';
      destruct (decide (s' = s)) as [->|]; try done.
    + intros Hs'. destruct (IHe s' Hs') as [m Hm]. by exists m.
    + intros _. set_solver.
    + intros Hs'. apply IHs in Hs'. set_solver.
    + intros _. exists msg. set_solver.
    + intros Hs'. destruct (IHe s' Hs') as [m Hm]. exists m. set_solver.
    + auto.
Qed.

(** The entry of a stage whose function always raises is in [errors] from
    its completion on, whatever the other stages do. *)
Lemma failing_stage_logged st0 rs f msg :
  (∀ st, body f st = Exception msg) →
  rtc step (init st0) rs → terminal (stat rs f) = true →
  error_entry f msg ∈ get_errors (state rs).
Proof.
  intros Hfail. revert rs.
  apply (rtc_ind_r (λ rs : @run_state Data,
           terminal (stat rs f) = true →
           error_entry f msg ∈ get_errors (state rs))); [done|].
  intros y z _ Hstep IH.
  inversion Hstep as [rs0 s Hready|rs0 s seen Hrun Hseen]; subst; simpl;
    unfold set_stat.
  - destruct (decide (f = s)); [done|auto].
  - destruct (merge_prefix s (writes s seen) (state y)) as [_ [l Hl]].
    destruct (decide (f = s)) as [<-|].
    + intros _. unfold Workflow.writes. rewrite Hfail. simpl. set_solver.
    + intros Ht. rewrite Hl. set_solver.
Qed.

(** When [f] is the one stage that fails, its entry is the one addition to
    [errors], whatever the order of completion. *)
Lemma single_failure_reachable st0 rs f msg :
  (∀ st, body f st = Exception msg) →
  (∀ s st, s ≠ f → ∃ v, body s st = Value v) →
  rtc step (init st0) rs →
  (∀ s, s ≠ f → stat rs s ≠ Errored) ∧
  get_errors (state rs) =
    get_errors st0 ++
    (if terminal (stat rs f) then [error_entry f msg] else []).
Proof.
  intros Hfail Hothers. revert rs. apply rtc_ind_r.
  { simpl. by rewrite app_nil_r. }
  intros y z _ Hstep [IHo IHe].
  inversion Hstep as [rs0 s Hready|rs0 s seen Hrun Hseen]; subst; simpl;
    unfold set_stat.
  - unfold ready in Hready. apply andb_prop in Hready as [Hw _].
    apply bool_decide_eq_true in Hw. split.
    + intros s' Hne. destruct (decide (s' = s)); [done|auto].
    + destruct (decide (f = s)) as [->|]; [|done].
      rewrite IHe, Hw. done.
  - destruct (decide (s = f)) as [->|Hne].
    + unfold Workflow.writes, raises. rewrite Hfail. simpl. split.
      * intros s' Hne'. rewrite decide_False by done. auto.
      * rewrite decide_True by done. simpl. rewrite IHe, Hrun. simpl.
        by rewrite app_nil_r.
    + destruct (Hothers s seen Hne) as [v Hv].
      unfold Workflow.writes, raises. rewrite Hv. simpl. split.
      * intros s' Hne'. destruct (decide (s' = s)); [done|auto].
      * rewrite decide_False by done. apply IHe.
Qed.

(** The schedule [execute] is one of the executions. *)
Lemma rtc_app {A} (R : relation A) x y z :
  rtc R x y → rtc R y z → rtc R x z.
Proof. induction 1 as [|a b c Hab _ IH]; [done|]. intros. eapply rtc_l; eauto. Qed.

Lemma dispatch_ready_reachable (rs : @run_state Data) :
  rtc step rs (dispatch_ready rs).
Proof.
  unfold dispatch_ready. generalize all_stages. intros l. revert rs.
  induction l as [|s l IH]; intros rs; simpl; [done|].
  destruct (ready rs s) eqn:Hready; [|apply IH].
  eapply rtc_l; [by apply step_dispatch|apply IH].
Qed.

Lemma complete_running_reachable (rs : @run_state Data) :
  rtc step rs (complete_running body rs).
Proof.
  unfold complete_running. generalize all_stages. intros l. revert rs.
  induction l as [|s l IH]; intros rs; simpl; [done|].
  destruct (decide (stat rs s = Running)) as [Hrun|Hrun].
  - rewrite bool_decide_eq_true_2 by done.
    eapply rtc_l; [apply step_complete; [done|by left]|apply IH].
  - rewrite bool_decide_eq_false_2 by done. apply IH.
Qed.

Lemma execute_reachable n (rs : @run_state Data) :
  rtc step rs (execute body n rs).
Proof.
  revert rs. induction n as [|n IH]; intros rs; [apply rtc_refl|].
  lazy delta [execute]; lazy iota beta.
  eapply rtc_app; [apply dispatch_ready_reachable|].
  eapply rtc_app; [apply complete_running_reachable|apply IH].
Qed.

End WorkflowFacts.

Lemma boom_run_is_run :
  Workflow.run Workflow.boom_body Workflow.empty_state Workflow.boom_run.
Proof.
  split; [apply execute_reachable|].
  apply all_terminal_finished. vm_compute. reflexivity.
Qed.

(** In the executor of the spec, errors are contained: every run comes to
    an end; at its end every stage - siblings, downstream stages and the
    sink - has been executed and is [Done] or [Errored], and the run is
    [Completed]; what was in the two tracking sequences stays as a prefix,
    every [Errored] stage has its entry in [errors] and every [Done] stage
    its name in [steps_completed].  A stage whose function always raises
    ends [Errored] with its entry in [errors], whatever the other stages do;
    when it is the single stage that fails, the others are [Done] and
    [errors] is the initial list with that one entry appended. *)
Lemma executor_contains_errors
    {Data : Type} (body : Workflow.stage → @Workflow.State Data → Workflow.result)
    (st0 : Workflow.State) :
  (∃ rs, Workflow.run body st0 rs) ∧
  (∀ rs, Workflow.run body st0 rs →
     (∀ s, Workflow.Complete s ∈ Workflow.events rs) ∧
     (∀ s, Workflow.terminal (Workflow.stat rs s) = true) ∧
     Workflow.status_of rs = Workflow.Completed ∧
     Workflow.get_steps st0 `prefix_of` Workflow.get_steps (Workflow.state rs) ∧
     Workflow.get_errors st0 `prefix_of` Workflow.get_errors (Workflow.state rs) ∧
     (∀ s, Workflow.stat rs s = Workflow.Errored →
        ∃ msg, Workflow.error_entry s msg
                 ∈ Workflow.get_errors (Workflow.state rs)) ∧
     (∀ s, Workflow.stat rs s = Workflow.Done →
        Workflow.name s ∈ Workflow.get_steps (Workflow.state rs)) ∧
     (∀ f msg, (∀ st, body f st = Workflow.Exception msg) →
        Workflow.stat rs f = Workflow.Errored ∧
        Workflow.error_entry f msg ∈ Workflow.get_errors (Workflow.state rs) ∧
        ((∀ s st, s ≠ f → ∃ v, body s st = Workflow.Value v) →
         (∀ s, s ≠ f → Workflow.stat rs s = Workflow.Done) ∧
         Workflow.get_errors (Workflow.state rs) =
           Workflow.get_errors st0 ++ [Workflow.error_entry f msg]))).
Proof.
  split.
  - destruct (terminates body (Workflow.init st0)) as (rs & Hrtc & Hfin).
    by exists rs.
  - intros rs [Hrtc Hfin].
    pose proof (invariant_reachable body st0 rs Hrtc) as Hinv.
    pose proof (finished_all_terminal body rs Hfin) as Hall.
    rewrite all_terminal_spec in Hall.
    destruct (tracking_reachable body st0 rs Hrtc) as [Hps Hpe].
    destruct (traces_reachable body st0 rs Hrtc) as [Hte Hts].
    split; [intros s; apply (Workflow.inv_terminal _ Hinv), Hall|].
    split; [done|]. split; [by apply (finished_completed body)|].
    split; [done|]. split; [done|]. split; [done|]. split; [done|].
    intros f msg Hfail.
    split; [by eapply failing_stage_errored|].
    split; [by eapply failing_stage_logged|].
    intros Hothers.
    destruct (single_failure_reachable body st0 rs f msg Hfail Hothers Hrtc)
      as [Ho He].
    split.
    + intros s Hne. specialize (Hall s). specialize (Ho s Hne).
      by destruct (Workflow.stat rs s).
    + by rewrite He, (Hall f).
Qed.

(** C4.  In every run the convergent stage [planner] is dispatched at most
    once, its dispatch comes after the completion ([Done] or [Errored]) of
    each of its four upstream stages [recommendation], [sentiment_analyzer],
    [similarity_engine] and [price_predictor], and by the end of the run it
    has been dispatched: exactly once, and never on partial completion. *)
Theorem planner_dispatched_once_after_all_four
    {Data : Type} (body : Workflow.stage → @Workflow.State Data → Workflow.result)
    (st0 : Workflow.State) (rs : Workflow.run_state)
    (Hreach : rtc (Workflow.step body) (Workflow.init st0) rs) :
  Workflow.upstream Workflow.planner =
    [Workflow.recommendation; Workflow.sentiment_analyzer;
     Workflow.similarity_engine; Workflow.price_predictor] ∧
  (∀ i j, Workflow.events rs !! i = Some (Workflow.Dispatch Workflow.planner) →
          Workflow.events rs !! j = Some (Workflow.Dispatch Workflow.planner) →
          i = j) ∧
  (∀ i, Workflow.events rs !! i = Some (Workflow.Dispatch Workflow.planner) →
        ∀ u, u ∈ [Workflow.recommendation; Workflow.sentiment_analyzer;
                  Workflow.similarity_engine; Workflow.price_predictor] →
        ∃ j, (j < i)%nat ∧
             Workflow.events rs !! j = Some (Workflow.Complete u) ∧
             Workflow.terminal (Workflow.stat rs u) = true) ∧
  (Workflow.finished body rs →
     ∃ i, Workflow.events rs !! i = Some (Workflow.Dispatch Workflow.planner)) ∧
  (∃ rs', rtc (Workflow.step body) rs rs' ∧ Workflow.finished body rs').
Proof.
  pose proof (invariant_reachable body st0 rs Hreach) as Hinv.
  split; [done|]. split; [|split; [|split]].
  - intros i j Hi Hj. by eapply NoDup_lookup; [apply (Workflow.inv_nodup _ Hinv)|..].
  - intros i Hi u Hu.
    destruct (Workflow.inv_upstream _ Hinv i _ Hi u Hu) as (j & Hlt & Hj).
    exists j. repeat split; [done..|].
    apply (Workflow.inv_terminal _ Hinv). by eapply list_elem_of_lookup_2.
  - intros Hfin. apply list_elem_of_lookup.
    pose proof (finished_all_terminal body rs Hfin) as Hall.
    rewrite all_terminal_spec in Hall. specialize (Hall Workflow.planner).
    destruct (decide (Workflow.Dispatch Workflow.planner ∈ Workflow.events rs))
      as [|Hn]; [done|].
    apply (Workflow.inv_waiting _ Hinv) in Hn. by rewrite Hn in Hall.
  - apply terminates.
Qed.

Lemma planner_dispatched_once_after_all_four_witness :
  rtc (Workflow.step Workflow.boom_body) (Workflow.init Workflow.empty_state)
      Workflow.boom_run ∧
  ∃ i, Workflow.events Workflow.boom_run !! i
       = Some (Workflow.Dispatch Workflow.planner) ∧
       ∃ j, (j < i)%nat ∧
            Workflow.events Workflow.boom_run !! j
            = Some (Workflow.Complete Workflow.recommendation).
Proof.
  pose proof (proj1 boom_run_is_run) as Hreach.
  destruct (planner_dispatched_once_after_all_four Workflow.boom_body
              Workflow.empty_state Workflow.boom_run Hreach)
    as (_ & _ & Hafter & Hdisp & _).
  split; [assumption|].
  destruct (Hdisp (proj2 boom_run_is_run)) as [i Hi].
  exists i. split; [assumption|].
  destruct (Hafter i Hi Workflow.recommendation (list_elem_of_here _ _))
    as (j & Hlt & Hj & _).
  exists j. split; assumption.
Defined.

(** C9.  A stage function only appends to the two tracking sequences: on
    success its own name goes to the end of [steps_completed] and [errors]
    is untouched; on failure one entry goes to the end of [errors] and
    [steps_completed] is untouched.  So when stage functions are applied one
    after the other, what earlier stages wrote stays, in order, as a prefix
    of both sequences, and each stage adds exactly one element. *)
Theorem stages_only_append
    {Data : Type} (body : Workflow.stage → @Workflow.State Data → Workflow.result) :
  (∀ s st,
     (Workflow.get_steps (Workflow.node body s st) =
        Workflow.get_steps st ++ [Workflow.name s] ∧
      Workflow.errors (Workflow.node body s st) = Workflow.errors st) ∨
     (∃ msg,
        Workflow.get_errors (Workflow.node body s st) =
          Workflow.get_errors st ++ [Workflow.error_entry s msg] ∧
        Workflow.steps_completed (Workflow.node body s st) =
          Workflow.steps_completed st)) ∧
  (∀ (ss : list Workflow.stage) st,
     let st' := foldl (λ x s, Workflow.node body s x) st ss in
     Workflow.get_steps st `prefix_of` Workflow.get_steps st' ∧
     Workflow.get_errors st `prefix_of` Workflow.get_errors st' ∧
     (length (Workflow.get_steps st') + length (Workflow.get_errors st')
      = length (Workflow.get_steps st) + length (Workflow.get_errors st)
        + length ss)%nat) ∧
  (∀ s rs,
     Workflow.state (Workflow.complete body s (Workflow.state rs) rs)
     = Workflow.node body s (Workflow.state rs)).
Proof.
  split; [|split].
  - intros s st.
    destruct (node_appends body s st) as [(? & ? & _)|(msg & ? & ? & _)];
      [by left|right; by exists msg].
  - intros ss. induction ss as [|s ss IH]; intros st; simpl.
    + repeat split; [done..|lia].
    + destruct (IH (Workflow.node body s st)) as (IH1 & IH2 & IH3).
      destruct (node_prefix body s st) as [Hs He].
      split; [by etrans|]. split; [by etrans|].
      rewrite IH3.
      destruct (node_appends body s st) as [(E1 & E2 & _)|(msg & E1 & E2 & _)].
      * rewrite E1. unfold Workflow.get_errors. rewrite E2.
        rewrite length_app. simpl. lia.
      * rewrite E1. unfold Workflow.get_steps. rewrite E2.
        rewrite length_app. simpl. lia.
  - intros s rs. apply complete_shared.
Qed.

(** ** The adapters *)

Section CollectorFacts.
Import Eff ApiCollector.
Context {Json Params : Type}.
Variable dumps : Json → string.
Variable loads : string → Json.
Variable truthy : Json → bool.
Variable cache_key_of : string → string → Params → string.
Variable with_key : Params → string → Params.
Variable E : @env Json Params.

#[local] Abbreviation make_api_request :=
  (make_api_request dumps loads truthy cache_key_of with_key E).

(** [_rate_limit_check] returns [True] and leaves the cache and the count
    of remote calls alone. *)
Lemma rate_limit_check_ok a w :
  ∃ w', rate_limit_check a w = (Returned true, w') ∧
        cache w' = cache w ∧ http_calls w' = http_calls w.
Proof.
  unfold rate_limit_check, bind, gets, modify, ret, sleep. simpl.
  repeat (case_bool_decide; simpl); eexists; (split; [reflexivity|done]).
Qed.

Lemma make_api_request_read_fails a ep ps hours w :
  read_fails E = true →
  make_api_request a ep ps hours w = (Raised SqliteError, w).
Proof.
  intros Hr. unfold ApiCollector.make_api_request, bind.
  by rewrite get_cached_response_fails.
Qed.

(** After a miss, everything is decided by the key and the one remote
    call. *)
Lemma make_api_request_miss a ep ps hours w :
  read_fails E = false →
  cache w !! cache_key_of (api_name_of a) ep ps = None →
  ∃ w1, cache w1 = cache w ∧ http_calls w1 = http_calls w ∧
    make_api_request a ep ps hours w =
    match usable_key (api_keys E a) with
    | None => (Returned None, w1)
    | Some k =>
        let w2 := World (cache w1) (clock w1) (request_counts w1)
                        (last_request_time w1) (S (http_calls w1)) (slept w1) in
        match http E (http_calls w)
                   (base_urls a +:+ "/" +:+ ep)%string (with_key ps k) with
        | HttpOk body =>
            match cache_response dumps E
                    (cache_key_of (api_name_of a) ep ps) (api_name_of a) ep
                    body hours w2 with
            | (Returned _, w3) => (Returned (Some body), w3)
            | (Raised e, w3) => (Raised e, w3)
            end
        | RequestException _ => (Returned None, w2)
        end
    end.
Proof.
  intros Hr Hmiss.
  destruct (rate_limit_check_ok a w) as (w1 & Hrl & Hc & Hh).
  exists w1. split; [done|]. split; [done|].
  unfold ApiCollector.make_api_request, bind.
  rewrite (get_cached_response_absent loads E w _ Hr Hmiss). simpl.
  rewrite Hrl. simpl.
  destruct (usable_key (api_keys E a)) as [k|]; [|done].
  unfold http_get. rewrite Hh.
  destruct (http E (http_calls w) _ _) as [body|m]; [|done].
  by destruct (cache_response _ _ _ _ _ _ _ _) as [[[]|e] w3].
Qed.

End CollectorFacts.

Section ScraperFacts.
Import Eff WebScraper.
Variable md5 : string → string.
Variable E : env.

#[local] Abbreviation make_request_from := (make_request_from md5 E).

Lemma make_request_from_read_fails left u retries hours w :
  read_fails E = true →
  make_request_from left u retries hours w = (Raised SqliteError, w).
Proof.
  intros Hr. destruct left; simpl; unfold bind;
    by rewrite get_cached_content_fails.
Qed.

Lemma get_cached_content_world key w :
  (get_cached_content E key w).2 = w.
Proof.
  unfold get_cached_content. destruct (read_fails E); [done|].
  unfold bind, gets, ret. simpl. by destruct (select_valid _ _ _).
Qed.

(** One round of [_make_request]. *)
Lemma make_request_from_round left u retries hours w :
  make_request_from left u retries hours w =
    match get_cached_content E (md5 u) w with
    | (Raised e, w0) => (Raised e, w0)
    | (Returned c, w0) =>
        if py_truth c then (Returned c, w0) else
        let d := uniform_delay E (http_calls w0) in
        let w1 := World (cache w0) (clock w0 + d) (S (http_calls w0))
                        (slept w0 ++ [d]) in
        match http E (http_calls w0) u with
        | HttpOk text =>
            match cache_content E (md5 u) u text hours w1 with
            | (Returned _, w2) => (Returned (Some text), w2)
            | (Raised e, w2) => (Raised e, w2)
            end
        | RequestException _ =>
            match left with
            | S left' =>
                let b := 2 ^ Z.of_nat retries * 1000000 in
                make_request_from left' u (S retries) hours
                  (World (cache w0) (clock w0 + d + b) (S (http_calls w0))
                         ((slept w0 ++ [d]) ++ [b]))
            | O => (Returned None, w1)
            end
        end
    end.
Proof.
  destruct left as [|left']; simpl; unfold bind at 1;
    destruct (get_cached_content E (md5 u) w) as [[c|e] w0]; try done;
    destruct (py_truth c); try done;
    unfold bind, random_delay, sleep, gets, modify, http_get; simpl;
    destruct (http E (http_calls w0) u) as [text|m]; simpl; try done;
    by destruct (cache_content _ _ _ _ _ _) as [[[]|e] w2].
Qed.

(** One round of [_make_request] after a miss. *)
Lemma make_request_from_miss left u retries hours w :
  read_fails E = false →
  cache w !! md5 u = None →
  make_request_from left u retries hours w =
    let d := uniform_delay E (http_calls w) in
    let w1 := World (cache w) (clock w + d) (S (http_calls w))
                    (slept w ++ [d]) in
    match http E (http_calls w) u with
    | HttpOk text =>
        match cache_content E (md5 u) u text hours w1 with
        | (Returned _, w2) => (Returned (Some text), w2)
        | (Raised e, w2) => (Raised e, w2)
        end
    | RequestException _ =>
        match left with
        | S left' =>
            let b := 2 ^ Z.of_nat retries * 1000000 in
            make_request_from left' u (S retries) hours
              (World (cache w) (clock w + d + b) (S (http_calls w))
                     ((slept w ++ [d]) ++ [b]))
        | O => (Returned None, w1)
        end
    end.
Proof.
  intros Hr Hmiss. rewrite make_request_from_round.
  by rewrite (get_cached_content_absent E w _ Hr Hmiss).
Qed.

Lemma cache_content_calls key u c hours w :
  http_calls (cache_content E key u c hours w).2 = http_calls w.
Proof. unfold cache_content. by destruct (write_fails E). Qed.

(** The number of remote calls is bounded by the retries that are left. *)
Lemma make_request_from_bound left u retries hours w :
  (http_calls (make_request_from left u retries hours w).2
   ≤ http_calls w + S left)%nat.
Proof.
  revert retries w. induction left as [|left IH]; intros retries w;
    rewrite make_request_from_round;
    pose proof (get_cached_content_world (md5 u) w) as Hw;
    destruct (get_cached_content E (md5 u) w) as [[c|e] w0];
    simpl in Hw; subst w0; simpl; try lia;
    (destruct (py_truth c); simpl; [lia|]);
    (destruct (http E (http_calls w) u) as [text|m]; simpl;
     [match goal with |- context [cache_content E ?k ?u' ?c' ?h ?w'] =>
        pose proof (cache_content_calls k u' c' h w') as Hc;
        destruct (cache_content E k u' c' h w') as [[[]|e] w2]
      end; simpl in *; lia|]).
  - lia.
  - etrans; [apply IH|]. simpl. lia.
Qed.

(** When every attempt fails: [left + 1] remote calls, the sleeps of
    [failing_sleeps], the cache untouched, and [None] for the caller. *)
Lemma make_request_from_all_fail left u retries hours w :
  read_fails E = false →
  cache w !! md5 u = None →
  (∀ k, (k ≤ left)%nat →
        ∃ m, http E (http_calls w + k) u = RequestException m) →
  let out := make_request_from left u retries hours w in
  out.1 = Returned None ∧
  http_calls out.2 = (http_calls w + S left)%nat ∧
  cache out.2 = cache w ∧
  slept out.2 = slept w ++ failing_sleeps E left (http_calls w) retries.
Proof.
  intros Hr. revert retries w.
  induction left as [|left IH]; intros retries w Hmiss Hfail out; subst out.
  - rewrite make_request_from_miss by done.
    destruct (Hfail 0%nat ltac:(lia)) as [m Hm].
    rewrite Nat.add_0_r in Hm. rewrite Hm. simpl.
    repeat split; try done; lia.
  - rewrite make_request_from_miss by done.
    destruct (Hfail 0%nat ltac:(lia)) as [m Hm].
    rewrite Nat.add_0_r in Hm. rewrite Hm. cbv zeta.
    match goal with |- context [make_request_from left u (S retries) hours ?w'] =>
      destruct (IH (S retries) w') as (H1 & H2 & H3 & H4) end.
    + done.
    + intros k Hk. simpl.
      destruct (Hfail (S k) ltac:(lia)) as [m' Hm']. exists m'.
      by rewrite <-Hm', Nat.add_succ_r.
    + simpl in *. rewrite H1, H2, H3, H4. repeat split; try done; try lia.
      by rewrite <-!app_assoc.
Qed.

End ScraperFacts.

(** C5, as the code has it.  [WebScraper._make_request] makes at most four
    remote calls (the first attempt and [max_retries = 3] retries); when all
    of them fail it sleeps [2 ** retries] seconds (1, 2, 4) before the
    retries, leaves the cache alone and returns [None].
    [APICollector._make_api_request] makes one remote call; when it fails
    the adapter returns [None] at once.  Neither raises for a request
    failure. *)
Theorem request_failure_handling :
  (∀ (Json Params : Type) (dumps : Json → string) (loads : string → Json)
     (truthy : Json → bool) (cache_key_of : string → string → Params → string)
     (with_key : Params → string → Params) (E : @ApiCollector.env Json Params)
     a ep ps hours w k m,
     ApiCollector.read_fails E = false →
     ApiCollector.cache w !! cache_key_of (ApiCollector.api_name_of a) ep ps
       = None →
     ApiCollector.usable_key (ApiCollector.api_keys E a) = Some k →
     ApiCollector.http E (ApiCollector.http_calls w)
       (ApiCollector.base_urls a +:+ "/" +:+ ep)%string (with_key ps k)
       = Eff.RequestException m →
     let out := ApiCollector.make_api_request dumps loads truthy cache_key_of
                  with_key E a ep ps hours w in
     out.1 = Eff.Returned None ∧
     ApiCollector.http_calls out.2 = S (ApiCollector.http_calls w) ∧
     ApiCollector.cache out.2 = ApiCollector.cache w) ∧
  (∀ (md5 : string → string) (E : WebScraper.env) u hours w,
     (WebScraper.http_calls (WebScraper.make_request md5 E u 0 hours w).2
      ≤ WebScraper.http_calls w + 4)%nat) ∧
  (∀ (md5 : string → string) (E : WebScraper.env) u hours w,
     WebScraper.read_fails E = false →
     WebScraper.cache w !! md5 u = None →
     (∀ i, (i ≤ 3)%nat →
        ∃ m, WebScraper.http E (WebScraper.http_calls w + i) u
             = Eff.RequestException m) →
     let out := WebScraper.make_request md5 E u 0 hours w in
     let n := WebScraper.http_calls w in
     out.1 = Eff.Returned None ∧
     WebScraper.http_calls out.2 = (n + 4)%nat ∧
     WebScraper.cache out.2 = WebScraper.cache w ∧
     WebScraper.slept out.2 =
       WebScraper.slept w ++
       [WebScraper.uniform_delay E n; 1000000;
        WebScraper.uniform_delay E (S n); 2000000;
        WebScraper.uniform_delay E (S (S n)); 4000000;
        WebScraper.uniform_delay E (S (S (S n)))]).
Proof.
  split; [|split].
  - intros Json Params dumps loads truthy cache_key_of with_key E
      a ep ps hours w k m Hr Hmiss Hkey Hfail out. subst out.
    destruct (make_api_request_miss dumps loads truthy cache_key_of with_key
                E a ep ps hours w Hr Hmiss) as (w1 & Hc & Hh & ->).
    rewrite Hkey. cbv zeta. rewrite Hfail. simpl. by rewrite Hh.
  - intros md5 E u hours w.
    apply (make_request_from_bound md5 E 3 u 0 hours w).
  - intros md5 E u hours w Hr Hmiss Hfail out n. subst out n.
    apply (make_request_from_all_fail md5 E 3 u 0 hours w Hr Hmiss Hfail).
Qed.

Lemma request_failure_handling_witness :
  (WebScraper.page_request WebScraper.down_env WebScraper.fresh_world).1
    = Eff.Returned None ∧
  WebScraper.slept
    (WebScraper.page_request WebScraper.down_env WebScraper.fresh_world).2
    = [2000000; 1000000; 2000000; 2000000; 2000000; 4000000; 2000000].
Proof.
  destruct request_failure_handling as (_ & _ & Hweb).
  destruct (Hweb (λ s, s) WebScraper.down_env
              "https://vietnam.travel/destinations/hue" 12
              WebScraper.fresh_world eq_refl (lookup_empty _))
    as (Hnone & _ & _ & Hslept).
  { intros i _. by exists "connection refused". }
  split; [exact Hnone|exact Hslept].
Defined.

(** C5 as stated fails on the code: the collector does not retry (the
    first call fails, the second would have succeeded, and the adapter has
    already answered [None] after one call and no sleep), and the scraper
    makes four attempts, not three. *)
Lemma request_failure_not_retried_thrice :
  (ApiCollector.text_request ApiCollector.flaky_env
     ApiCollector.fresh_world).1 = Eff.Returned None ∧
  ApiCollector.http_calls
    (ApiCollector.text_request ApiCollector.flaky_env
       ApiCollector.fresh_world).2 = 1%nat ∧
  ApiCollector.slept
    (ApiCollector.text_request ApiCollector.flaky_env
       ApiCollector.fresh_world).2 = [] ∧
  ApiCollector.http ApiCollector.flaky_env 1
    "https://api.openweathermap.org/data/2.5/weather"
    [("q", "Hue"); ("key", "secret")] = Eff.HttpOk "[1]" ∧
  WebScraper.http_calls
    (WebScraper.page_request WebScraper.down_env WebScraper.fresh_world).2
    = 4%nat.
Proof. vm_compute. repeat split; reflexivity. Qed.

(** C6, as the code has it.  The adapters do not absorb a storage failure.
    When the cache file cannot be read, the cache read and the adapter
    operation raise [sqlite3.Error]: no miss is returned and no remote call
    is made.  When the cache file cannot be written, an adapter operation
    that has fetched a fresh result raises [sqlite3.Error] instead of
    returning it; the cache is unchanged. *)
Theorem storage_failure_raises :
  (∀ (Json Params : Type) (dumps : Json → string) (loads : string → Json)
     (truthy : Json → bool) (cache_key_of : string → string → Params → string)
     (with_key : Params → string → Params) (E : @ApiCollector.env Json Params)
     a ep ps hours w,
     ApiCollector.read_fails E = true →
     ApiCollector.get_cached_response loads E
       (cache_key_of (ApiCollector.api_name_of a) ep ps) w
       = (Eff.Raised Eff.SqliteError, w) ∧
     ApiCollector.make_api_request dumps loads truthy cache_key_of with_key
       E a ep ps hours w = (Eff.Raised Eff.SqliteError, w)) ∧
  (∀ (Json Params : Type) (dumps : Json → string) (loads : string → Json)
     (truthy : Json → bool) (cache_key_of : string → string → Params → string)
     (with_key : Params → string → Params) (E : @ApiCollector.env Json Params)
     a ep ps hours w k body,
     ApiCollector.read_fails E = false →
     ApiCollector.write_fails E = true →
     ApiCollector.cache w !! cache_key_of (ApiCollector.api_name_of a) ep ps
       = None →
     ApiCollector.usable_key (ApiCollector.api_keys E a) = Some k →
     ApiCollector.http E (ApiCollector.http_calls w)
       (ApiCollector.base_urls a +:+ "/" +:+ ep)%string (with_key ps k)
       = Eff.HttpOk body →
     let out := ApiCollector.make_api_request dumps loads truthy cache_key_of
                  with_key E a ep ps hours w in
     out.1 = Eff.Raised Eff.SqliteError ∧
     ApiCollector.http_calls out.2 = S (ApiCollector.http_calls w) ∧
     ApiCollector.cache out.2 = ApiCollector.cache w) ∧
  (∀ (md5 : string → string) (E : WebScraper.env) u retries hours w,
     WebScraper.read_fails E = true →
     WebScraper.get_cached_content E (md5 u) w
       = (Eff.Raised Eff.SqliteError, w) ∧
     WebScraper.make_request md5 E u retries hours w
       = (Eff.Raised Eff.SqliteError, w)) ∧
  (∀ (md5 : string → string) (E : WebScraper.env) u retries hours w text,
     WebScraper.read_fails E = false →
     WebScraper.write_fails E = true →
     WebScraper.cache w !! md5 u = None →
     WebScraper.http E (WebScraper.http_calls w) u = Eff.HttpOk text →
     let out := WebScraper.make_request md5 E u retries hours w in
     out.1 = Eff.Raised Eff.SqliteError ∧
     WebScraper.http_calls out.2 = S (WebScraper.http_calls w) ∧
     WebScraper.cache out.2 = WebScraper.cache w).
Proof.
  split; [|split; [|split]].
  - intros Json Params dumps loads truthy cache_key_of with_key E
      a ep ps hours w Hr.
    split; [by apply get_cached_response_fails|].
    by apply make_api_request_read_fails.
  - intros Json Params dumps loads truthy cache_key_of with_key E
      a ep ps hours w k body Hr Hw Hmiss Hkey Hok out. subst out.
    destruct (make_api_request_miss dumps loads truthy cache_key_of with_key
                E a ep ps hours w Hr Hmiss) as (w1 & Hc & Hh & ->).
    rewrite Hkey. cbv zeta. rewrite Hok.
    rewrite cache_response_fails by done. simpl. by rewrite Hh.
  - intros md5 E u retries hours w Hr.
    split; [by apply get_cached_content_fails|].
    by apply make_request_from_read_fails.
  - intros md5 E u retries hours w text Hr Hw Hmiss Hok out. subst out.
    unfold WebScraper.make_request.
    rewrite make_request_from_miss by done. cbv zeta. rewrite Hok.
    by rewrite cache_content_fails by done.
Qed.

Lemma storage_failure_raises_witness :
  (ApiCollector.text_request ApiCollector.unreadable_env
     ApiCollector.fresh_world).1 = Eff.Raised Eff.SqliteError ∧
  (WebScraper.page_request WebScraper.unwritable_env
     WebScraper.fresh_world).1 = Eff.Raised Eff.SqliteError.
Proof.
  destruct storage_failure_raises as (Hread & _ & _ & Hwrite).
  split.
  - unfold ApiCollector.text_request.
    destruct (Hread string (list (string * string)) (λ s, s) (λ s, s)
                ApiCollector.text_truthy ApiCollector.text_key
                ApiCollector.text_with_key ApiCollector.unreadable_env
                ApiCollector.openweather "weather" [("q", "Hue")] 6
                ApiCollector.fresh_world eq_refl) as [_ ->].
    reflexivity.
  - destruct (Hwrite (λ s, s) WebScraper.unwritable_env
                "https://vietnam.travel/destinations/hue" 0%nat 12
                WebScraper.fresh_world "<html></html>"
                eq_refl eq_refl (lookup_empty _) eq_refl) as [Hout _].
    exact Hout.
Defined.

(** C6 as stated fails on the code: with an unreadable cache file the read
    and the adapter raise instead of reporting a miss, and with an
    unwritable cache file the adapter raises although the remote call
    returned a result. *)
Lemma storage_failure_is_not_a_miss :
  (ApiCollector.get_cached_response (λ s, s) ApiCollector.unreadable_env
     "openweather:weather" ApiCollector.fresh_world).1
    = Eff.Raised Eff.SqliteError ∧
  (ApiCollector.text_request ApiCollector.unreadable_env
     ApiCollector.fresh_world).1 = Eff.Raised Eff.SqliteError ∧
  ApiCollector.http ApiCollector.unwritable_env 0
    "https://api.openweathermap.org/data/2.5/weather"
    [("q", "Hue"); ("key", "secret")] = Eff.HttpOk "[1]" ∧
  (ApiCollector.text_request ApiCollector.unwritable_env
     ApiCollector.fresh_world).1 = Eff.Raised Eff.SqliteError ∧
  (WebScraper.page_request WebScraper.unreadable_env
     WebScraper.fresh_world).1 = Eff.Raised Eff.SqliteError ∧
  (WebScraper.page_request WebScraper.unwritable_env
     WebScraper.fresh_world).1 = Eff.Raised Eff.SqliteError.
Proof. vm_compute. repeat split; reflexivity. Qed.

(** ** The run controller *)

Section ControllerFacts.
Import App.
Variable strip : string → string.
Variable py_int : string → option Z.
Variable get_distance : string → string → option Z.
Variable far_min_cost : Z → Z → res Z.
Variable rag : string → Z → Z → Z → string → res unit.




End ControllerFacts.




(** ** The sequential engine *)

Section EngineFacts.
Import Engine.
Variable agent_registry : gset string.
Variable now_iso : nat → string.

#[local] Abbreviation execute_step := (execute_step agent_registry now_iso).
#[local] Abbreviation execute_workflow_steps :=
  (execute_workflow_steps agent_registry now_iso).

(** A step whose function reports its failure in the returned dict (an
    unknown step type, an agent that is not registered) does not stop the
    loop: as long as no step raises, every step is recorded. *)
Lemma execute_workflow_steps_all_return steps i data completed :
  (∀ k step, steps !! k = Some step →
             ∃ d, execute_step step (i + k) = Returns d) →
  (execute_workflow_steps steps i data completed).2
    = completed ++ (step_name <$> steps).
Proof.
  revert i data completed.
  induction steps as [|step rest IH]; intros i data completed Hret; simpl.
  - by rewrite app_nil_r.
  - destruct (Hret 0%nat step eq_refl) as [d Hd].
    rewrite Nat.add_0_r in Hd. rewrite Hd.
    rewrite IH.
    + by rewrite <-app_assoc.
    + intros k step' Hk. destruct (Hret (S k) step' Hk) as [d' Hd'].
      exists d'. by rewrite <-Hd', Nat.add_succ_r.
Qed.

(** A step that raises ends the loop: [str(e)] is stored under ["error"] and
    the steps after it are not executed. *)
Lemma execute_workflow_steps_break step rest i data completed msg :
  execute_step step i = Raises msg →
  execute_workflow_steps (step :: rest) i data completed
    = (<["error" := msg]> data, completed).
Proof. intros Hr. simpl. by rewrite Hr. Qed.

(** The steps before the first one that raises are recorded; that step is
    not, its message is stored under ["error"], and what comes after it in
    the list plays no part. *)
Lemma execute_workflow_steps_raise pre step rest i data completed msg :
  (∀ k p, pre !! k = Some p → ∃ d, execute_step p (i + k) = Returns d) →
  execute_step step (i + length pre) = Raises msg →
  (execute_workflow_steps (pre ++ step :: rest) i data completed).2
    = completed ++ (step_name <$> pre) ∧
  (execute_workflow_steps (pre ++ step :: rest) i data completed).1 !! "error"
    = Some msg ∧
  execute_workflow_steps (pre ++ step :: rest) i data completed
    = execute_workflow_steps (pre ++ [step]) i data completed.
Proof.
  revert i data completed.
  induction pre as [|p pre IH]; intros i data completed Hret Hraise; simpl.
  - rewrite Nat.add_0_r in Hraise. rewrite Hraise. simpl.
    by rewrite app_nil_r, lookup_insert_eq.
  - destruct (Hret 0%nat p eq_refl) as [d Hd].
    rewrite Nat.add_0_r in Hd. rewrite Hd.
    destruct (IH (S i) (d ∪ data) (completed ++ [step_name p]))
      as (H1 & H2 & H3).
    + intros k p' Hk. destruct (Hret (S k) p' Hk) as [d' Hd'].
      exists d'. by rewrite <-Hd', Nat.add_succ_r.
    + simpl in Hraise. by rewrite Nat.add_succ_r in Hraise.
    + rewrite H1, H2, H3. by rewrite <-app_assoc.
Qed.

Lemma last_started_raise pre step rest i current msg :
  (∀ k p, pre !! k = Some p → ∃ d, execute_step p (i + k) = Returns d) →
  execute_step step (i + length pre) = Raises msg →
  last_started agent_registry now_iso (pre ++ step :: rest) i current
    = Some (step_name step).
Proof.
  revert i current.
  induction pre as [|p pre IH]; intros i current Hret Hraise; simpl.
  - rewrite Nat.add_0_r in Hraise. by rewrite Hraise.
  - destruct (Hret 0%nat p eq_refl) as [d Hd].
    rewrite Nat.add_0_r in Hd. rewrite Hd. apply IH.
    + intros k p' Hk. destruct (Hret (S k) p' Hk) as [d' Hd'].
      exists d'. by rewrite <-Hd', Nat.add_succ_r.
    + simpl in Hraise. by rewrite Nat.add_succ_r in Hraise.
Qed.

End EngineFacts.

(** ** Error containment *)

(** C1, as the code has it.  Each stage function of the graph contains its
    own error: when its body raises, the function returns, with
    [<label> error: <msg>] appended to [errors] and with [steps_completed]
    and every other key as they were.  So when the stage functions are
    called one after the other, the stages called after the failing one -
    its siblings, its downstream stages, the sink [analytics_engine], which
    comes after every other stage in the order of the graph - are all run:
    each leaves its name in [steps_completed] or its own entry in [errors],
    and the entry of the failing stage stays in [errors].  The loop of
    [WorkflowEngine._execute_workflow_steps] does not do that: at the first
    step that raises it stores [str(e)] under ["error"], does not record the
    step, executes none of the steps after it and returns;
    [execute_workflow] then files the run with status ["completed"] and
    [success] [False]. *)
Theorem error_containment :
  (∀ (Data : Type)
     (body : Workflow.stage → @Workflow.State Data → Workflow.result)
     f st msg,
     body f st = Workflow.Exception msg →
     Workflow.node body f st =
       Workflow.MkState (Workflow.fields st) (Workflow.steps_completed st)
         (Some (Workflow.get_errors st ++ [Workflow.error_entry f msg])) ∧
     ∀ later,
       let st' := foldl (λ x s, Workflow.node body s x)
                        (Workflow.node body f st) later in
       (Workflow.get_errors st ++ [Workflow.error_entry f msg])
         `prefix_of` Workflow.get_errors st' ∧
       Workflow.get_steps st `prefix_of` Workflow.get_steps st' ∧
       (∀ s, s ∈ later →
          Workflow.name s ∈ Workflow.get_steps st' ∨
          ∃ m, Workflow.error_entry s m ∈ Workflow.get_errors st') ∧
       (length (Workflow.get_steps st') + length (Workflow.get_errors st')
        = length (Workflow.get_steps st) + length (Workflow.get_errors st)
          + 1 + length later)%nat) ∧
  (∀ f, f ≠ Workflow.sink →
     ∃ before later, Workflow.all_stages = before ++ f :: later ∧
                     Workflow.sink ∈ later) ∧
  (∀ agent_registry now_iso pre step rest i data completed msg,
     (∀ k p, pre !! k = Some p →
        ∃ d, Engine.execute_step agent_registry now_iso p (i + k)
             = Engine.Returns d) →
     Engine.execute_step agent_registry now_iso step (i + length pre)
       = Engine.Raises msg →
     let out := Engine.execute_workflow_steps agent_registry now_iso
                  (pre ++ step :: rest) i data completed in
     out.2 = completed ++ (Engine.step_name <$> pre) ∧
     out.1 !! "error" = Some msg ∧
     out = Engine.execute_workflow_steps agent_registry now_iso
             (pre ++ [step]) i data completed) ∧
  (∀ agent_registry now_iso pre step rest msg
     name entry input stamp started finished eng,
     (∀ k p, pre !! k = Some p →
        ∃ d, Engine.execute_step agent_registry now_iso p k
             = Engine.Returns d) →
     Engine.execute_step agent_registry now_iso step (length pre)
       = Engine.Raises msg →
     Engine.workflows eng !! name = Some entry →
     Engine.wf_steps entry = Some (pre ++ step :: rest) →
     let run := Engine.execute_workflow agent_registry now_iso name input
                  stamp started finished eng in
     run.1 !! "error" = Some msg ∧
     Engine.active_workflows run.2 !! (name +:+ "_" +:+ stamp) =
       Some (Engine.Active name "completed" started input
               (Engine.step_name <$> pre) (Some (Engine.step_name step))
               (Some finished) (Some run.1)) ∧
     Engine.workflow_history run.2 =
       Engine.workflow_history eng ++
         [Engine.HistoryEntry (name +:+ "_" +:+ stamp) name "completed"
                              false]).
Proof.
  split; [|split; [|split]].
  - intros Data body f st msg Hb.
    destruct (node_raise body f st msg Hb) as (He & Hs & Hf).
    assert (Workflow.node body f st =
            Workflow.MkState (Workflow.fields st) (Workflow.steps_completed st)
              (Some (Workflow.get_errors st ++ [Workflow.error_entry f msg])))
      as Hnode.
    { unfold Workflow.node. by rewrite Hb. }
    split; [done|]. rewrite Hnode.
    set (st1 := Workflow.MkState _ _ _).
    assert (Workflow.get_steps st1 = Workflow.get_steps st) as Hs1 by done.
    assert (Workflow.get_errors st1 =
            Workflow.get_errors st ++ [Workflow.error_entry f msg]) as He1
      by done.
    rewrite <-Hs1, <-He1.
    replace (length (Workflow.get_steps st1) + length (Workflow.get_errors st)
             + 1)%nat
      with (length (Workflow.get_steps st1) + length (Workflow.get_errors st1))%nat
      by (rewrite He1, length_app; simpl; lia).
    clearbody st1. clear. intros later. revert st1.
    induction later as [|s later IH]; intros st1; simpl.
    + split; [done|]. split; [done|]. split; [|lia].
      intros s Hs. by apply elem_of_nil in Hs.
    + destruct (IH (Workflow.node body s st1)) as (IH1 & IH2 & IH3 & IH4).
      destruct (node_prefix body s st1) as [Hps Hpe].
      split; [by etrans|]. split; [by etrans|]. split.
      * intros s' Hin. apply elem_of_cons in Hin as [->|Hin]; [|by apply IH3].
        destruct (node_appends body s st1)
          as [(E1 & _ & _)|(m & E1 & _ & _)].
        -- left. destruct IH2 as [l ->]. rewrite E1. set_solver.
        -- right. exists m. destruct IH1 as [l ->]. rewrite E1. set_solver.
      * rewrite IH4.
        destruct (node_appends body s st1)
          as [(E1 & E2 & _)|(m & E1 & E2 & _)].
        -- rewrite E1. unfold Workflow.get_errors. rewrite E2.
           rewrite length_app. simpl. lia.
        -- rewrite E1. unfold Workflow.get_steps. rewrite E2.
           rewrite length_app. simpl. lia.
  - intros f Hns. unfold Workflow.all_stages.
    destruct f; try done;
      match goal with
      | |- ∃ before later, ?l = _ ∧ _ =>
          first
            [ exists []; eexists; split; [reflexivity|set_solver]
            | exists (take 1 l); eexists; split; [reflexivity|set_solver]
            | exists (take 2 l); eexists; split; [reflexivity|set_solver]
            | exists (take 3 l); eexists; split; [reflexivity|set_solver]
            | exists (take 4 l); eexists; split; [reflexivity|set_solver]
            | exists (take 5 l); eexists; split; [reflexivity|set_solver]
            | exists (take 6 l); eexists; split; [reflexivity|set_solver]
            | exists (take 7 l); eexists; split; [reflexivity|set_solver]
            | exists (take 8 l); eexists; split; [reflexivity|set_solver] ]
      end.
  - intros agent_registry now_iso pre step rest i data completed msg Hret Hraise.
    by destruct (execute_workflow_steps_raise agent_registry now_iso pre step
                   rest i data completed msg Hret Hraise) as (H1 & H2 & H3).
  - intros agent_registry now_iso pre step rest msg
      name entry input stamp started finished eng Hret Hraise Hw Hsteps.
    destruct (execute_workflow_steps_raise agent_registry now_iso pre step rest
                0 input [] msg Hret Hraise) as (H1 & H2 & _).
    unfold Engine.execute_workflow. rewrite Hw, Hsteps. simpl.
    rewrite lookup_insert_eq, H1. simpl.
    rewrite (last_started_raise agent_registry now_iso pre step rest 0 None msg
               Hret Hraise).
    split; [done|]. split; [done|].
    do 3 f_equal. unfold Engine.success.
    apply bool_decide_eq_false_2. intros Hn. apply Hn.
    apply elem_of_dom. by rewrite H2.
Qed.

Lemma error_containment_witness :
  ["Recommendation error: boom"] `prefix_of`
    Workflow.get_errors
      (foldl (λ x s, Workflow.node Workflow.boom_body s x)
         (Workflow.node Workflow.boom_body Workflow.recommendation
            Workflow.empty_state)
         [Workflow.planner; Workflow.researcher; Workflow.analytics_engine]) ∧
  Engine.failing_run.1 !! "error" = Some "unhashable type: 'list'".
Proof.
  destruct error_containment as (Hnode & _ & _ & Hengine). split.
  - destruct (Hnode unit Workflow.boom_body Workflow.recommendation
                Workflow.empty_state "boom" eq_refl) as [_ Hlater].
    exact (proj1 (Hlater [Workflow.planner; Workflow.researcher;
                          Workflow.analytics_engine])).
  - refine (proj1 (Hengine Engine.travel_agents (λ _, "t1")
             [Engine.agent_step "api_collector"]
             (Engine.StepCfg (Some "recommendation") (Some "agent_call")
                (Some (Engine.Unhashable "unhashable type: 'list'")) None None)
             [Engine.agent_step "analytics_engine"]
             "unhashable type: 'list'" "travel"
             (Engine.WorkflowEntry (Some Engine.failing_steps) "t0")
             ∅ "20250101_000000" "t1" "t2" Engine.failing_engine _ _ _ _)).
    + intros [|k] p Hk; simpl in Hk; [|done].
      injection Hk as <-. eexists. vm_compute. reflexivity.
    + vm_compute. reflexivity.
    + vm_compute. reflexivity.
    + reflexivity.
Defined.

(** The claim fails on [WorkflowEngine]: of three steps named after stages
    of the graph, the second raises ([TypeError], its agent is a list).  The
    loop stops there: only ["api_collector"] is in [steps_completed], the
    step ["analytics_engine"] is not executed (none of its keys is in the
    result), the message is stored under ["error"] without the name of the
    step, and the run is filed as ["completed"] with [success] [False]. *)
Lemma engine_stops_at_raising_step :
  (Engine.execute_workflow_steps Engine.travel_agents (λ _, "t1")
     Engine.failing_steps 0 ∅ []).2 = ["api_collector"] ∧
  Engine.failing_run.1 !! "api_collector_status" = Some "success" ∧
  Engine.failing_run.1 !! "error" = Some "unhashable type: 'list'" ∧
  Engine.failing_run.1 !! "analytics_engine_status" = None ∧
  Engine.failing_run.1 !! "analytics_engine_result" = None ∧
  Engine.active_workflows Engine.failing_run.2 !! "travel_20250101_000000" =
    Some (Engine.Active "travel" "completed" "t1" ∅ ["api_collector"]
            (Some "recommendation") (Some "t2") (Some Engine.failing_run.1)) ∧
  Engine.workflow_history Engine.failing_run.2 =
    [Engine.HistoryEntry "travel_20250101_000000" "travel" "completed" false].
Proof. vm_compute. repeat split; reflexivity. Qed.

(** * Further properties *)

(** ** [DualDatabaseManager]: hit counting, eviction and statistics *)

Lemma sum_hits_insert {R : Type} (h : R → Z) (t : gmap string R) k r :
  DualDb.sum_hits h (<[k := r]> t)
  = DualDb.sum_hits h t - from_option h 0 (t !! k) + h r.
Proof.
  unfold DualDb.sum_hits.
  destruct (t !! k) as [r0|] eqn:Hk; simpl.
  - rewrite <-(insert_delete_id t k r0) at 2 by done.
    rewrite <-(insert_delete_eq t).
    rewrite !map_fold_insert_L; try (by rewrite lookup_delete_eq); intros; lia.
  - rewrite map_fold_insert_L; [lia| intros; lia |done].
Qed.

Lemma size_filter_expired_insert {R : Type} (e : R → Z) (t : gmap string R)
    k r r' now :
  t !! k = Some r → e r' = e r →
  size (filter (λ kr : string * R, e kr.2 < now) (<[k := r']> t)) =
  size (filter (λ kr : string * R, e kr.2 < now) t).
Proof.
  intros Hk He. destruct (decide (e r' < now)) as [Hr'|Hr'].
  - rewrite map_filter_insert_True by done.
    rewrite map_size_insert_Some; [done|].
    exists r. rewrite map_lookup_filter_Some. split; [done|]. simpl. lia.
  - rewrite map_filter_insert_False by done.
    rewrite map_filter_delete. rewrite delete_id; [done|].
    rewrite map_lookup_filter_None. right. intros r0 Hr0. simpl.
    rewrite Hk in Hr0. injection Hr0 as <-. lia.
Qed.

(** After an eviction at [now], an eviction at [t1 ≤ now] finds nothing. *)
Lemma filter_expired_twice {R : Type} (e : R → Z) (t : gmap string R) now t1 :
  t1 ≤ now →
  filter (λ kr : string * R, e kr.2 < t1)
         (filter (λ kr : string * R, ¬ e kr.2 < now) t) = ∅ ∧
  filter (λ kr : string * R, ¬ e kr.2 < t1)
         (filter (λ kr : string * R, ¬ e kr.2 < now) t)
    = filter (λ kr : string * R, ¬ e kr.2 < now) t.
Proof.
  intros Hle. split.
  - apply map_empty. intros k. apply map_lookup_filter_None. right.
    intros r Hk. apply map_lookup_filter_Some in Hk as [_ Hk]. simpl in *. lia.
  - apply map_filter_id. intros k r Hk.
    apply map_lookup_filter_Some in Hk as [_ Hk]. simpl in *. lia.
Qed.

Section DualDbMore.
Import DualDb.
Context {Json : Type}.
Variable dumps : Json → string.
Variable loads : string → Json.
Variable md5 : string → string.

(** X1.  [hit_count] counts the reads that were served: after any number of
    calls of [get_api_cache] for one key, all before the entry's
    [expires_at], the counter of that row has grown by the number of calls,
    its other columns, the other rows and [web_cache] are as before, and a
    further read before [expires_at] still returns the stored document. *)
Theorem get_api_cache_counts_hits db key r ts t :
  api_cache db !! key = Some r →
  Forall (λ t', t' < api_expires_at r) ts →
  t < api_expires_at r →
  let db' := foldl (λ d t', (get_api_cache loads d key t').2) db ts in
  api_cache db' !! key =
    Some (ApiRow (api_name r) (endpoint r) (params r) (response_data r)
                 (api_created_at r) (api_expires_at r)
                 (api_hit_count r + Z.of_nat (length ts))) ∧
  (∀ k, k ≠ key → api_cache db' !! k = api_cache db !! k) ∧
  web_cache db' = web_cache db ∧
  (get_api_cache loads db' key t).1 = Some (loads (response_data r)).
Proof.
  intros Hk Hts Ht. simpl. revert db r Hk Hts Ht.
  induction ts as [|t' ts IH]; intros db r Hk Hts Ht; simpl.
  - rewrite (get_api_cache_hit loads db key r t Hk Ht). simpl.
    rewrite Hk, Z.add_0_r. by destruct r.
  - apply Forall_cons in Hts as [Ht' Hts].
    rewrite (get_api_cache_hit loads db key r t' Hk Ht'). simpl.
    set (db1 := CacheDb (<[key := api_hit r]> (api_cache db)) (web_cache db)).
    destruct (IH db1 (api_hit r)) as (H1 & H2 & H3 & H4).
    { unfold db1. simpl. by rewrite lookup_insert_eq. }
    { done. }
    { done. }
    split; [|split; [|split]].
    + rewrite H1. simpl. do 2 f_equal. lia.
    + intros k Hne. rewrite (H2 k Hne). unfold db1. simpl.
      by rewrite lookup_insert_ne.
    + by rewrite H3.
    + by rewrite H4.
Qed.

(** X2.  [get_web_cache] touches one row at most: a hit returns the stored
    content and adds one to the [hit_count] of the row of [md5(url)],
    leaving its other columns and every other row alone; a miss (no row, or
    a row whose [expires_at] is not after [now]) changes nothing; in both
    cases [api_cache] stays as it was. *)
Theorem get_web_cache_frame db u now :
  let out := get_web_cache md5 db u now in
  (∀ c, out.1 = Some c →
     ∃ r, web_cache db !! md5 u = Some r ∧ now < web_expires_at r ∧
          c = content r ∧
          web_cache out.2 !! md5 u =
            Some (WebRow (url r) (content r) (content_type r)
                         (web_created_at r) (web_expires_at r)
                         (web_hit_count r + 1)) ∧
          (∀ k, k ≠ md5 u → web_cache out.2 !! k = web_cache db !! k)) ∧
  (out.1 = None →
     out.2 = db ∧
     (web_cache db !! md5 u = None ∨
      ∃ r, web_cache db !! md5 u = Some r ∧ web_expires_at r ≤ now)) ∧
  api_cache out.2 = api_cache db.
Proof.
  simpl. unfold get_web_cache.
  destruct (web_cache db !! md5 u) as [r|] eqn:Hk.
  - case_bool_decide as Hlt; simpl.
    + split; [|split]; [|done|done].
      intros c [= <-]. exists r. repeat split; try done.
      * by rewrite lookup_insert_eq.
      * intros k Hne. by rewrite lookup_insert_ne.
    + split; [done|]. split; [|done]. intros _. split; [done|].
      right. exists r. split; [done|lia].
  - simpl. split; [done|]. split; [|done]. intros _. split; [done|]. by left.
Qed.

(** X3.  Eviction is invisible to readers: a read of any key of either
    table at a time that is not before the eviction returns the same answer
    whether or not [clear_expired_cache] has run, since the rows it deletes
    are rows that such a read refuses anyway. *)
Theorem clear_expired_cache_invisible db now now' key u t :
  now ≤ t → now' ≤ t →
  (get_api_cache loads (clear_expired_cache db now now').2 key t).1
    = (get_api_cache loads db key t).1 ∧
  (get_web_cache md5 (clear_expired_cache db now now').2 u t).1
    = (get_web_cache md5 db u t).1.
Proof.
  intros Hn Hn'.
  destruct (clear_expired_cache_rows db now now' key) as [Ha _].
  destruct (clear_expired_cache_rows db now now' (md5 u)) as [_ Hw].
  split.
  - unfold get_api_cache. rewrite Ha.
    destruct (api_cache db !! key) as [r|]; simpl; [|done].
    case_bool_decide as He; simpl.
    + rewrite bool_decide_eq_false_2 by lia. done.
    + by case_bool_decide.
  - unfold get_web_cache. rewrite Hw.
    destruct (web_cache db !! md5 u) as [r|]; simpl; [|done].
    case_bool_decide as He; simpl.
    + rewrite bool_decide_eq_false_2 by lia. done.
    + by case_bool_decide.
Qed.

(** X4.  Eviction is idempotent: once [clear_expired_cache] has run, a
    second run whose clock readings are not later than those of the first
    deletes nothing, reports three zeros and leaves both tables as they
    are. *)
Theorem clear_expired_cache_idempotent db now now' t t' :
  t ≤ now → t' ≤ now' →
  clear_expired_cache (clear_expired_cache db now now').2 t t'
    = (Deleted 0 0 0, (clear_expired_cache db now now').2).
Proof.
  intros Ht Ht'. unfold clear_expired_cache. simpl.
  destruct (filter_expired_twice api_expires_at (api_cache db) now t Ht)
    as [-> ->].
  destruct (filter_expired_twice web_expires_at (web_cache db) now' t' Ht')
    as [-> ->].
  by rewrite !map_size_empty.
Qed.

(** X5.  [clear_all_cache] reports the number of rows of each table and
    their sum, which is never less than what [clear_expired_cache] would
    have deleted, and leaves both tables empty: every later read is a miss
    that changes nothing, and all six numbers of [get_cache_stats] are
    zero. *)
Theorem clear_all_cache_empties db :
  let out := clear_all_cache db in
  api_cache_deleted out.1 = size (api_cache db) ∧
  web_cache_deleted out.1 = size (web_cache db) ∧
  total_deleted out.1 = (size (api_cache db) + size (web_cache db))%nat ∧
  (∀ now now',
     (api_cache_deleted (clear_expired_cache db now now').1
        ≤ api_cache_deleted out.1)%nat ∧
     (web_cache_deleted (clear_expired_cache db now now').1
        ≤ web_cache_deleted out.1)%nat) ∧
  (∀ key t, get_api_cache loads out.2 key t = (None, out.2)) ∧
  (∀ u t, get_web_cache md5 out.2 u t = (None, out.2)) ∧
  (∀ now now', get_cache_stats out.2 now now' = CacheStats 0 0 0 0 0 0).
Proof.
  simpl. repeat split.
  - apply map_subseteq_size, map_filter_subseteq.
  - apply map_subseteq_size, map_filter_subseteq.
Qed.

(** X6.  The statistics and the eviction agree: what [get_cache_stats]
    counts as expired in a table is exactly what [clear_expired_cache]
    deletes from it at the same clock readings; after the eviction the
    number of entries has gone down by that count and no entry counts as
    expired. *)
Theorem get_cache_stats_counts_evicted db now now' :
  let s := get_cache_stats db now now' in
  let out := clear_expired_cache db now now' in
  let s' := get_cache_stats out.2 now now' in
  api_cache_deleted out.1 = api_cache_expired s ∧
  web_cache_deleted out.1 = web_cache_expired s ∧
  (api_cache_entries s' + api_cache_expired s = api_cache_entries s)%nat ∧
  (web_cache_entries s' + web_cache_expired s = web_cache_entries s)%nat ∧
  api_cache_expired s' = 0%nat ∧
  web_cache_expired s' = 0%nat.
Proof.
  simpl.
  destruct (clear_expired_cache_count db now now') as (Ha & Hw & _).
  simpl in Ha, Hw.
  destruct (filter_expired_twice api_expires_at (api_cache db) now now)
    as [Ea _]; [lia|].
  destruct (filter_expired_twice web_expires_at (web_cache db) now' now')
    as [Ew _]; [lia|].
  rewrite Ea, Ew, map_size_empty. repeat split; lia.
Qed.

(** X7.  A read shows in the statistics as one hit and nothing else: after
    a hit of [get_api_cache], [api_cache_hits] is one more and the other
    five numbers of [get_cache_stats] are as before; after a miss all six
    are as before. *)
Theorem get_api_cache_hit_in_stats db key t now now' :
  let out := get_api_cache loads db key t in
  let s := get_cache_stats db now now' in
  get_cache_stats out.2 now now' =
    match out.1 with
    | Some _ =>
        CacheStats (api_cache_entries s) (api_cache_hits s + 1)
                   (api_cache_expired s) (web_cache_entries s)
                   (web_cache_hits s) (web_cache_expired s)
    | None => s
    end.
Proof.
  simpl. unfold get_api_cache.
  destruct (api_cache db !! key) as [r|] eqn:Hk; [|done].
  case_bool_decide as Hlt; [|done]. simpl.
  unfold get_cache_stats. simpl. f_equal.
  - apply map_size_insert_Some. by exists r.
  - rewrite sum_hits_insert, Hk. simpl. lia.
  - by apply (size_filter_expired_insert api_expires_at) with (r := r).
Qed.

(** X8.  Writing a key again starts its hit counter afresh: after
    [set_api_cache], the number of entries is one more when the key is new
    and unchanged when it replaces a row, [api_cache_hits] has lost the hits
    of the row that was replaced, and the numbers of [web_cache] are as
    before. *)
Theorem set_api_cache_in_stats db key api ep ps v hours t t' now now' :
  let s := get_cache_stats db now now' in
  let s' := get_cache_stats
              (set_api_cache dumps db key api ep ps v hours t t') now now' in
  api_cache_entries s' =
    match api_cache db !! key with
    | Some _ => api_cache_entries s
    | None => S (api_cache_entries s)
    end ∧
  api_cache_hits s' =
    api_cache_hits s - from_option api_hit_count 0 (api_cache db !! key) ∧
  web_cache_entries s' = web_cache_entries s ∧
  web_cache_hits s' = web_cache_hits s ∧
  web_cache_expired s' = web_cache_expired s.
Proof.
  simpl. repeat split.
  - rewrite map_size_insert. by destruct (api_cache db !! key).
  - rewrite sum_hits_insert. simpl. lia.
Qed.

End DualDbMore.

Lemma get_api_cache_counts_hits_witness :
  (DualDb.get_api_cache (λ s : string, s)
     (foldl (λ d t', (DualDb.get_api_cache (λ s : string, s) d "k" t').2)
            (DualDb.CacheDb
               {[ "k" := DualDb.ApiRow "openweather" "weather" "{}" "[1]"
                                       0 100 0 ]} ∅)
            [10; 20; 30]) "k" 40).1 = Some "[1]".
Proof.
  refine (proj2 (proj2 (proj2 (get_api_cache_counts_hits (λ s : string, s)
    (DualDb.CacheDb
       {[ "k" := DualDb.ApiRow "openweather" "weather" "{}" "[1]" 0 100 0 ]} ∅)
    "k" (DualDb.ApiRow "openweather" "weather" "{}" "[1]" 0 100 0)
    [10; 20; 30] 40 _ _ _)))).
  - reflexivity.
  - repeat constructor.
  - reflexivity.
Defined.

Lemma clear_expired_cache_invisible_witness :
  (DualDb.get_api_cache (λ s : string, s)
     (DualDb.clear_expired_cache
        (DualDb.CacheDb
           {[ "k" := DualDb.ApiRow "openweather" "weather" "{}" "[1]"
                                   0 100 0 ]} ∅)
        101 101).2 "k" 101).1
  = (DualDb.get_api_cache (λ s : string, s)
       (DualDb.CacheDb
          {[ "k" := DualDb.ApiRow "openweather" "weather" "{}" "[1]"
                                  0 100 0 ]} ∅)
       "k" 101).1.
Proof.
  refine (proj1 (clear_expired_cache_invisible
    (λ s : string, s) (λ s : string, s)
    (DualDb.CacheDb
       {[ "k" := DualDb.ApiRow "openweather" "weather" "{}" "[1]" 0 100 0 ]} ∅)
    101 101 "k" "" 101 _ _)); lia.
Defined.

Lemma clear_expired_cache_idempotent_witness :
  DualDb.clear_expired_cache
    (DualDb.clear_expired_cache
       (DualDb.CacheDb
          {[ "k" := DualDb.ApiRow "openweather" "weather" "{}" "[1]"
                                  0 100 0 ]} ∅)
       101 101).2 101 101
  = (DualDb.Deleted 0 0 0,
     (DualDb.clear_expired_cache
        (DualDb.CacheDb
           {[ "k" := DualDb.ApiRow "openweather" "weather" "{}" "[1]"
                                   0 100 0 ]} ∅)
        101 101).2).
Proof. apply clear_expired_cache_idempotent; lia. Defined.

(** ** [APICollector]: the rate limiter and the cached request *)

Section CollectorMore.
Import Eff ApiCollector.
Context {Json Params : Type}.
Variable dumps : Json → string.
Variable loads : string → Json.
Variable truthy : Json → bool.
Variable cache_key_of : string → string → Params → string.
Variable with_key : Params → string → Params.
Variable E : @env Json Params.

#[local] Abbreviation make_api_request :=
  (make_api_request dumps loads truthy cache_key_of with_key E).

Lemma rate_limit_check_last a w :
  last_request_time (rate_limit_check a w).2 a = clock w.
Proof.
  unfold rate_limit_check, bind, gets, modify, ret, sleep. simpl.
  repeat (case_bool_decide; simpl); by rewrite ?decide_True by done.
Qed.

(** X9.  [_rate_limit_check] always answers [True].  It leaves the counter
    of the API between [1] and its [requests_per_second] (at least [1] when
    the counter was not negative), records the time read at its start as
    [last_request_time], and touches neither the counters of the other
    APIs, nor the cache, nor the network.  It sleeps at most once, and only
    when the limit was reached less than a second after the last request:
    then it sleeps for the rest of that second and counts from [1] again. *)
Theorem rate_limit_check_counts a w :
  let out := rate_limit_check a w in
  out.1 = Returned true ∧
  request_counts out.2 a ≤ requests_per_second a ∧
  (0 ≤ request_counts w a → 1 ≤ request_counts out.2 a) ∧
  last_request_time out.2 a = clock w ∧
  (∀ b, b ≠ a →
     request_counts out.2 b = request_counts w b ∧
     last_request_time out.2 b = last_request_time w b) ∧
  cache out.2 = cache w ∧ http_calls out.2 = http_calls w ∧
  ((slept out.2 = slept w ∧ clock out.2 = clock w) ∨
   (requests_per_second a ≤ request_counts w a ∧
    clock w - last_request_time w a < 1000000 ∧
    slept out.2 = slept w ++ [1000000 - (clock w - last_request_time w a)] ∧
    clock out.2 = clock w + (1000000 - (clock w - last_request_time w a)) ∧
    request_counts out.2 a = 1)).
Proof.
  assert (Hrps : 1 ≤ requests_per_second a) by (destruct a; simpl; lia).
  unfold rate_limit_check, bind, gets, modify, ret, sleep. simpl.
  repeat (case_bool_decide; simpl);
    rewrite ?decide_True by done; simpl in *;
    (split; [done|]); (split; [lia|]); (split; [lia|]); (split; [done|]);
    (split; [intros b Hb; by rewrite !decide_False by done|]);
    (split; [done|]); (split; [done|]);
    first [left; done | right; repeat split; try done; lia | lia].
Qed.

(** The request of a document that the cache does not serve. *)
Lemma make_api_request_uncached a ep ps hours w c :
  get_cached_response loads E (cache_key_of (api_name_of a) ep ps) w
    = (Returned c, w) →
  py_truth truthy c = false →
  make_api_request a ep ps hours w =
    let w1 := (rate_limit_check a w).2 in
    match usable_key (api_keys E a) with
    | None => (Returned None, w1)
    | Some k =>
        let w2 := World (cache w1) (clock w1) (request_counts w1)
                        (last_request_time w1) (S (http_calls w1)) (slept w1) in
        match http E (http_calls w)
                   (base_urls a +:+ "/" +:+ ep)%string (with_key ps k) with
        | HttpOk body =>
            match cache_response dumps E
                    (cache_key_of (api_name_of a) ep ps) (api_name_of a) ep
                    body hours w2 with
            | (Returned _, w3) => (Returned (Some body), w3)
            | (Raised e, w3) => (Raised e, w3)
            end
        | RequestException _ => (Returned None, w2)
        end
    end.
Proof.
  intros Hc Hf.
  destruct (rate_limit_check_ok a w) as (w1 & Hrl & _ & Hh).
  unfold ApiCollector.make_api_request, bind.
  rewrite Hc, Hf, Hrl. simpl.
  destruct (usable_key (api_keys E a)) as [k|]; [|done].
  unfold http_get. rewrite Hh.
  destruct (http E (http_calls w) _ _) as [body|m]; [|done].
  by destruct (cache_response _ _ _ _ _ _ _ _) as [[[]|e] w3].
Qed.

(** The request of a document that the cache serves. *)
Lemma make_api_request_served a ep ps hours w c :
  get_cached_response loads E (cache_key_of (api_name_of a) ep ps) w
    = (Returned (Some c), w) →
  truthy c = true →
  make_api_request a ep ps hours w = (Returned (Some c), w).
Proof.
  intros Hc Ht. unfold ApiCollector.make_api_request, bind.
  rewrite Hc. simpl. by rewrite Ht.
Qed.

(** X10.  A request whose answer is in the cache, not expired and not
    empty, is served from the cache: [_make_api_request] returns the stored
    document and changes nothing - no remote call, no write, and the rate
    limiter is not even consulted. *)
Theorem make_api_request_cached a ep ps hours w r :
  read_fails E = false →
  cache w !! cache_key_of (api_name_of a) ep ps = Some r →
  clock w < expires_at r →
  truthy (loads (response_data r)) = true →
  make_api_request a ep ps hours w
    = (Returned (Some (loads (response_data r))), w).
Proof.
  intros Hr Hk Hlt Ht. apply make_api_request_served; [|done].
  by apply get_cached_response_valid.
Qed.


(** X12.  An empty document is never served from the cache: when the row
    of the request holds a document that Python takes for false (such as
    an empty dict) and a key is configured, [_make_api_request] goes to the
    network although the row is there - one remote call - and returns its
    answer (or raises [sqlite3.Error] when the answer cannot be written to
    the cache), or [None] when the call fails. *)
Theorem make_api_request_empty_document_refetched a ep ps hours w r k :
  read_fails E = false →
  cache w !! cache_key_of (api_name_of a) ep ps = Some r →
  truthy (loads (response_data r)) = false →
  usable_key (api_keys E a) = Some k →
  let out := make_api_request a ep ps hours w in
  http_calls out.2 = S (http_calls w) ∧
  match http E (http_calls w) (base_urls a +:+ "/" +:+ ep)%string
             (with_key ps k) with
  | HttpOk body =>
      out.1 = Returned (Some body) ∨ out.1 = Raised SqliteError
  | RequestException _ => out.1 = Returned None
  end.
Proof.
  intros Hr Hk Hf Hkey.
  assert (∃ c, get_cached_response loads E (cache_key_of (api_name_of a) ep ps) w
               = (Returned c, w) ∧ py_truth truthy c = false) as (c & Hc & Hpt).
  { destruct (decide (clock w < expires_at r)) as [Hlt|Hge].
    - exists (Some (loads (response_data r))). split; [|done].
      by apply get_cached_response_valid.
    - exists None. split; [|done].
      apply get_cached_response_expired with (r := r); [done|done|lia]. }
  rewrite (make_api_request_uncached a ep ps hours w c Hc Hpt).
  rewrite Hkey. cbv zeta.
  destruct (rate_limit_check_ok a w) as (w1 & Hrl & _ & Hh).
  rewrite Hrl. simpl.
  destruct (http E (http_calls w) _ _) as [body|m]; simpl.
  - unfold cache_response. destruct (write_fails E); simpl.
    + split; [by rewrite Hh|]. by right.
    + split; [by rewrite Hh|]. by left.
  - split; [by rewrite Hh|done].
Qed.

(** X13.  Without a usable API key (none configured, or the empty
    string) a request that is not in the cache returns [None] without any
    remote call and without writing to the cache; it has passed the rate
    limiter all the same, so it is counted and its time recorded. *)
Theorem make_api_request_without_key a ep ps hours w :
  read_fails E = false →
  cache w !! cache_key_of (api_name_of a) ep ps = None →
  usable_key (api_keys E a) = None →
  let out := make_api_request a ep ps hours w in
  out.1 = Returned None ∧
  http_calls out.2 = http_calls w ∧
  cache out.2 = cache w ∧
  out.2 = (rate_limit_check a w).2 ∧
  last_request_time out.2 a = clock w.
Proof.
  intros Hr Hmiss Hkey.
  rewrite (make_api_request_uncached a ep ps hours w None
             (get_cached_response_absent loads E w _ Hr Hmiss) eq_refl).
  rewrite Hkey. cbv zeta.
  destruct (rate_limit_check_ok a w) as (w1 & Hrl & Hc & Hh).
  pose proof (rate_limit_check_last a w) as Hl.
  rewrite Hrl in *. simpl in *. done.
Qed.

End CollectorMore.

(** ** [WebScraper]: cached pages and retries *)

Section ScraperMore.
Import Eff WebScraper.
Variable md5 : string → string.
Variable E : env.

#[local] Abbreviation make_request_from := (make_request_from md5 E).
#[local] Abbreviation make_request := (make_request md5 E).

(** The first [k] attempts fail and the next one succeeds. *)
Lemma make_request_from_success left u retries hours w k text :
  read_fails E = false → write_fails E = false →
  cache w !! md5 u = None →
  (k ≤ left)%nat →
  (∀ i, (i < k)%nat → ∃ m, http E (http_calls w + i) u = RequestException m) →
  http E (http_calls w + k) u = HttpOk text →
  let out := make_request_from left u retries hours w in
  out.1 = Returned (Some text) ∧
  http_calls out.2 = (http_calls w + S k)%nat ∧
  cache out.2 =
    <[md5 u := Row u text (clock out.2)
                   (clock out.2 + timedelta_hours hours)]> (cache w) ∧
  length (slept out.2) = (length (slept w) + 2 * k + 1)%nat ∧
  slept w `prefix_of` slept out.2.
Proof.
  intros Hr Hw. revert left retries w.
  induction k as [|k IH]; intros left retries w Hmiss Hk Hfail Hok out;
    subst out.
  - rewrite make_request_from_miss by done.
    rewrite Nat.add_0_r in Hok. rewrite Hok. cbv zeta.
    rewrite cache_content_ok by done. simpl.
    rewrite length_app. simpl. repeat split; try done; try lia.
    by eexists.
  - destruct left as [|left]; [lia|].
    rewrite make_request_from_miss by done.
    destruct (Hfail 0%nat ltac:(lia)) as [m Hm].
    rewrite Nat.add_0_r in Hm. rewrite Hm. cbv zeta.
    match goal with |- context [make_request_from left u (S retries) hours ?w'] =>
      pose proof (IH left (S retries) w') as IHw;
      destruct (make_request_from left u (S retries) hours w') as [o w2]
    end.
    simpl in *. destruct IHw as (-> & H2 & H3 & H4 & H5).
    + done.
    + lia.
    + intros i Hi.
      destruct (Hfail (S i) ltac:(lia)) as [m' Hm']. exists m'.
      by rewrite <-Hm', Nat.add_succ_r.
    + by rewrite <-Hok, Nat.add_succ_r.
    + rewrite !length_app in H4. simpl in H4.
      repeat split; try done; try lia.
      destruct H5 as [l ->]. eexists. by rewrite <-!app_assoc.
Qed.

(** The request of a page that the cache serves. *)
Lemma make_request_from_served left u retries hours w c :
  get_cached_content E (md5 u) w = (Returned (Some c), w) →
  c ≠ "" →
  make_request_from left u retries hours w = (Returned (Some c), w).
Proof.
  intros Hc Hne. rewrite make_request_from_round, Hc. simpl.
  by rewrite bool_decide_eq_false_2.
Qed.

(** X14.  A page that is in the cache, not expired and not empty, is
    served from the cache: [_make_request] returns the stored text and
    changes nothing - no random delay, no remote call, no write - whatever
    the retry count it is called with. *)
Theorem make_request_cached u retries hours w r :
  read_fails E = false →
  cache w !! md5 u = Some r → clock w < expires_at r → content r ≠ "" →
  make_request u retries hours w = (Returned (Some (content r)), w).
Proof.
  intros Hr Hk Hlt Hne. apply make_request_from_served; [|done].
  by apply get_cached_content_valid.
Qed.


(** X16.  A page that was fetched is not fetched again while its entry
    lives: after a miss and a first attempt that answers with a non-empty
    text, [_make_request] returns the text, and the same request at any time
    before [cache_duration_hours] have passed since the write returns the
    same text without changing anything. *)
Theorem make_request_then_cached u retries retries' hours hours' w text t :
  read_fails E = false → write_fails E = false →
  cache w !! md5 u = None →
  http E (http_calls w) u = HttpOk text →
  text ≠ "" →
  let out := make_request u retries hours w in
  t < clock out.2 + timedelta_hours hours →
  out.1 = Returned (Some text) ∧
  make_request u retries' hours' (at_time t out.2)
    = (Returned (Some text), at_time t out.2).
Proof.
  intros Hr Hw Hmiss Hok Hne.
  destruct (make_request_from_success (max_retries - retries) u retries hours
              w 0 text Hr Hw Hmiss) as (H1 & H2 & H3 & H4 & _).
  { lia. }
  { intros i Hi. lia. }
  { by rewrite Nat.add_0_r. }
  intros out Ht. split; [done|].
  apply make_request_from_served; [|done].
  rewrite (get_cached_content_valid E _ _
             (Row u text (clock out.2) (clock out.2 + timedelta_hours hours)));
    simpl; try done.
  subst out. unfold WebScraper.make_request. rewrite H3.
  by rewrite lookup_insert_eq.
Qed.

End ScraperMore.

(** ** [WorkflowEngine]: the loop and the run records *)

Section EngineMore.
Import Engine.
Variable agent_registry : gset string.
Variable now_iso : nat → string.

#[local] Abbreviation execute_step := (execute_step agent_registry now_iso).
#[local] Abbreviation execute_workflow_steps :=
  (execute_workflow_steps agent_registry now_iso).
#[local] Abbreviation execute_workflow :=
  (execute_workflow agent_registry now_iso).



(** X17.  The loop of [_execute_workflow_steps] runs the steps in order
    up to the first one that raises: [steps_completed] is extended by the
    names of the first [n] steps, each of which returned; when [n] is less
    than the number of steps, the step at position [n] raised and its
    message is in the result under ["error"]. *)
Theorem execute_workflow_steps_stops_at_first_raise steps i data completed :
  let out := execute_workflow_steps steps i data completed in
  ∃ n, (n ≤ length steps)%nat ∧
    out.2 = completed ++ take n (step_name <$> steps) ∧
    (∀ k step, (k < n)%nat → steps !! k = Some step →
       ∃ d, execute_step step (i + k) = Returns d) ∧
    ((n < length steps)%nat →
       ∃ step msg, steps !! n = Some step ∧
         execute_step step (i + n) = Raises msg ∧
         out.1 !! "error" = Some msg).
Proof.
  revert i data completed.
  induction steps as [|step rest IH]; intros i data completed; simpl.
  - exists 0%nat. simpl. rewrite app_nil_r.
    repeat split; try done; try lia.
  - destruct (execute_step step i) as [d|msg] eqn:Hs.
    + destruct (IH (S i) (d ∪ data) (completed ++ [step_name step]))
        as (n & Hn & Hc & Hok & Hraise).
      exists (S n). simpl. split; [lia|]. split; [|split].
      * rewrite Hc. by rewrite <-app_assoc.
      * intros k step' Hk Hlook. destruct k as [|k]; simpl in Hlook.
        -- injection Hlook as <-. exists d. by rewrite Nat.add_0_r.
        -- destruct (Hok k step' ltac:(lia) Hlook) as [d' Hd'].
           exists d'. by rewrite <-Hd', Nat.add_succ_r.
      * intros Hlt. destruct (Hraise ltac:(lia)) as (step' & msg & H1 & H2 & H3).
        exists step', msg. split; [done|]. split; [|done].
        by rewrite <-H2, Nat.add_succ_r.
    + exists 0%nat. simpl. rewrite app_nil_r. split; [lia|]. split; [done|].
      split; [intros; lia|]. intros _. exists step, msg.
      rewrite Nat.add_0_r. split; [done|]. split; [done|].
      by rewrite lookup_insert_eq.
Qed.

(** X18.  [_execute_workflow_steps] only adds keys: every key of the
    input data is a key of the result, and so is every key of the dict
    returned by a step that completed, also when a later step raised. *)
Theorem execute_workflow_steps_keeps_keys steps i data completed :
  let out := execute_workflow_steps steps i data completed in
  dom data ⊆ dom out.1 ∧
  (∀ k step d, (length completed + k < length out.2)%nat →
     steps !! k = Some step → execute_step step (i + k) = Returns d →
     dom d ⊆ dom out.1).
Proof.
  revert i data completed.
  induction steps as [|step rest IH]; intros i data completed; simpl.
  - split; [done|]. intros k step d _ Hk. by rewrite lookup_nil in Hk.
  - destruct (execute_step step i) as [d|msg] eqn:Hs.
    + destruct (IH (S i) (d ∪ data) (completed ++ [step_name step]))
        as [Hdom Hsteps].
      rewrite dom_union in Hdom. split; [set_solver|].
      intros k step' d' Hlen Hlook Hd'. destruct k as [|k]; simpl in Hlook.
      * injection Hlook as <-. rewrite Nat.add_0_r in Hd'.
        rewrite Hs in Hd'. injection Hd' as <-. set_solver.
      * apply (Hsteps k step' d'); [|done|by rewrite Nat.add_succ_l, <-Nat.add_succ_r].
        rewrite length_app. simpl. lia.
    + simpl. split; [set_solver|]. intros k step' d' Hlen. lia.
Qed.


End EngineMore.

(** ** [transport_calculator.py]: distances *)

Section TransportFacts.
Import Transport.

(** No road is listed in both directions, and no listed distance is [0]. *)
Lemma DISTANCES_one_way :
  map_Forall (λ k v, v ≠ 0 ∧ DISTANCES !! (k.2, k.1) = None) DISTANCES.
Proof. apply (bool_decide_unpack _). vm_compute. reflexivity. Qed.
End TransportFacts.

Section TransportFacts2.
Import Transport.
Variable lower : string → string.
Variable strip : string → string.

(** [x or y] does not depend on the order when at most one of the two is
    there and none is [0]. *)
Lemma py_or_one_way (D : gmap (string * string) Z) a b :
  map_Forall (λ k v, v ≠ 0 ∧ D !! (k.2, k.1) = None) D →
  py_or (D !! (a, b)) (D !! (b, a)) = py_or (D !! (b, a)) (D !! (a, b)) ∧
  py_or (D !! (a, b)) (D !! (b, a)) ≠ Some 0.
Proof.
  intros HD.
  destruct (D !! (a, b)) as [v|] eqn:Hab;
    destruct (D !! (b, a)) as [v'|] eqn:Hba; unfold py_or.
  - destruct (HD _ _ Hab) as [_ Hnone]. cbn in Hnone. congruence.
  - destruct (HD _ _ Hab) as [Hv _].
    rewrite bool_decide_eq_false_2 by exact Hv. split; [reflexivity|congruence].
  - destruct (HD _ _ Hba) as [Hv _].
    rewrite bool_decide_eq_false_2 by exact Hv. split; [reflexivity|congruence].
  - split; [reflexivity|discriminate].
Qed.

(** X20.  [get_distance] is symmetric: the two cities in either order
    give the same answer, a distance or [None].  The answer is [0] exactly
    when the two names normalise to the same city. *)
Theorem get_distance_symmetric city1 city2 :
  get_distance lower strip city1 city2 = get_distance lower strip city2 city1 ∧
  (get_distance lower strip city1 city2 = Some 0 ↔
   normalize_city_name lower strip city1 = normalize_city_name lower strip city2).
Proof.
  unfold get_distance.
  generalize (normalize_city_name lower strip city1).
  generalize (normalize_city_name lower strip city2).
  intros c2 c1.
  destruct (py_or_one_way DISTANCES c1 c2 DISTANCES_one_way) as [Hsym Hnz].
  revert Hsym Hnz. generalize DISTANCES. intros D Hsym Hnz.
  destruct (decide (c1 = c2)) as [Heq|Hne].
  - rewrite !bool_decide_eq_true_2 by congruence. split; [reflexivity|].
    split; intros _; [exact Heq|reflexivity].
  - rewrite !bool_decide_eq_false_2 by congruence. split; [exact Hsym|].
    split; [intros H0; exfalso; exact (Hnz H0)|intros H0; exfalso; exact (Hne H0)].
Qed.

End TransportFacts2.

(** ** The run controller: edge cases of the form *)

Section ControllerMore.
Import App.
Variable strip : string → string.
Variable py_int : string → option Z.
Variable get_distance : string → string → option Z.
Variable far_min_cost : Z → Z → res Z.
Variable rag : string → Z → Z → Z → string → res unit.

#[local] Abbreviation tao_ke_hoach_du_lich :=
  (tao_ke_hoach_du_lich strip py_int get_distance far_min_cost rag).

(** X21.  A day count of [0] never reaches the workflow.  With a
    destination that is not blank and the transport cost computed, the
    controller then ends on the budget page when the budget is below the
    transport cost, and with [ZeroDivisionError] ("division by zero")
    otherwise. *)
Theorem controller_zero_days diem_di diem_den ngan_sach so_ngay so_nguoi so_thich :
  parse_days strip py_int so_ngay = 0 →
  let out :=
    tao_ke_hoach_du_lich diem_di diem_den ngan_sach so_ngay so_nguoi so_thich in
  invoked out = false ∧
  (blank strip diem_den = false →
   ∀ c, transport_min_cost get_distance far_min_cost
          (if blank strip diem_di then diem_den else diem_di) diem_den
          (parse_travelers strip py_int so_nguoi) = Ok c →
        out = if bool_decide (parse_budget strip py_int ngan_sach < c)
              then BudgetInsufficient else Failed "division by zero").
Proof.
  intros Hd. simpl. unfold App.tao_ke_hoach_du_lich. rewrite Hd.
  destruct (blank strip diem_den); [by split|].
  destruct (transport_min_cost _ _ _ _ _) as [c|msg]; [|by split].
  assert (validate_budget (parse_budget strip py_int ngan_sach) c 0
            (parse_travelers strip py_int so_nguoi)
          = if bool_decide (parse_budget strip py_int ngan_sach < c)
            then Ok (false, parse_budget strip py_int ngan_sach - c)
            else Err "division by zero") as ->.
  { unfold validate_budget.
    replace (c + (200000 + 150000 + 100000) * 0 *
                 parse_travelers strip py_int so_nguoi) with c by lia.
    case_bool_decide as Hlt; [|done].
    rewrite (bool_decide_eq_false_2 (0 < _)) by lia. done. }
  case_bool_decide; simpl.
  - split; [done|]. by intros _ c' [= <-]; rewrite bool_decide_eq_true_2.
  - split; [done|]. by intros _ c' [= <-]; rewrite bool_decide_eq_false_2.
Qed.

Lemma remove_char_idem c s : remove_char c (remove_char c s) = remove_char c s.
Proof.
  induction s as [|a s IH]; simpl; [done|].
  destruct (decide (a = c)); simpl; [done|].
  rewrite decide_False by done. by rewrite IH.
Qed.

Lemma remove_char_comm c d s :
  remove_char c (remove_char d s) = remove_char d (remove_char c s).
Proof.
  induction s as [|a s IH]; simpl; [done|].
  destruct (decide (a = d)), (decide (a = c)); simpl;
    rewrite ?decide_True by done; rewrite ?decide_False by done;
    by rewrite ?IH.
Qed.

(** X22.  Thousands separators are ignored in the budget: removing the
    commas and dots of the text beforehand does not change the number that
    the controller reads (so ["1.5"] is read as [15]).  ([int] of the empty
    string raises.) *)
Theorem parse_budget_ignores_separators ngan_sach :
  py_int (strip "") = None →
  parse_budget strip py_int (remove_char "." (remove_char "," ngan_sach))
  = parse_budget strip py_int ngan_sach.
Proof.
  intros Hempty. unfold parse_budget.
  rewrite (remove_char_comm "," "."), remove_char_idem.
  rewrite (remove_char_comm "." ","), remove_char_idem.
  rewrite (remove_char_comm "," ".").
  case_bool_decide as Hs; case_bool_decide as Hs'; try done.
  - by rewrite Hs, Hempty.
  - subst ngan_sach. done.
Qed.

End ControllerMore.

(** ** The statements above at concrete inputs *)

Lemma make_api_request_cached_witness :
  let w := ApiCollector.World
             {[ "openweather:weather" :=
                  ApiCollector.Row "openweather" "weather" "[1]" 0 100 ]}
             0 (λ _, 0) (λ _, 0) 0 [] in
  ApiCollector.text_request ApiCollector.flaky_env w
    = (Eff.Returned (Some "[1]"), w).
Proof.
  intros w.
  apply (make_api_request_cached (λ s, s) (λ s, s) ApiCollector.text_truthy
           ApiCollector.text_key ApiCollector.text_with_key
           ApiCollector.flaky_env ApiCollector.openweather "weather"
           [("q", "Hue")] 6 w
           (ApiCollector.Row "openweather" "weather" "[1]" 0 100));
    reflexivity.
Defined.


Lemma make_api_request_empty_document_refetched_witness :
  let w := ApiCollector.World
             {[ "openweather:weather" :=
                  ApiCollector.Row "openweather" "weather" "" 0 100 ]}
             0 (λ _, 0) (λ _, 0) 0 [] in
  let out := ApiCollector.text_request ApiCollector.flaky_env w in
  ApiCollector.http_calls out.2 = 1%nat ∧ out.1 = Eff.Returned None.
Proof.
  intros w.
  apply (make_api_request_empty_document_refetched (λ s, s) (λ s, s)
           ApiCollector.text_truthy ApiCollector.text_key
           ApiCollector.text_with_key ApiCollector.flaky_env
           ApiCollector.openweather "weather" [("q", "Hue")] 6 w
           (ApiCollector.Row "openweather" "weather" "" 0 100) "secret");
    reflexivity.
Defined.

Lemma make_api_request_without_key_witness :
  let E := ApiCollector.Env (λ _, None)
             (λ _ _ (_ : list (string * string)), Eff.HttpOk "[1]")
             false false in
  let out := ApiCollector.text_request E ApiCollector.fresh_world in
  out.1 = Eff.Returned None ∧
  ApiCollector.http_calls out.2 = 0%nat ∧
  ApiCollector.cache out.2 = ∅ ∧
  ApiCollector.request_counts out.2 ApiCollector.openweather = 1.
Proof.
  intros E.
  destruct (make_api_request_without_key (λ s, s) (λ s, s)
              ApiCollector.text_truthy ApiCollector.text_key
              ApiCollector.text_with_key E ApiCollector.openweather "weather"
              [("q", "Hue")] 6 ApiCollector.fresh_world
              eq_refl eq_refl eq_refl) as (H1 & H2 & H3 & H4 & H5).
  intros out. split; [exact H1|]. split; [exact H2|]. split; [exact H3|].
  vm_compute. reflexivity.
Defined.

Lemma make_request_cached_witness :
  let w := WebScraper.World
             {[ "https://vietnam.travel/events" :=
                  WebScraper.Row "https://vietnam.travel/events"
                                 "<html></html>" 0 100 ]} 0 0 [] in
  WebScraper.make_request (λ s, s) WebScraper.down_env
    "https://vietnam.travel/events" 0 12 w
    = (Eff.Returned (Some "<html></html>"), w).
Proof.
  intros w.
  apply (make_request_cached (λ s, s) WebScraper.down_env
           "https://vietnam.travel/events" 0 12 w
           (WebScraper.Row "https://vietnam.travel/events" "<html></html>"
                           0 100));
    try reflexivity.
  discriminate.
Defined.


Lemma make_request_then_cached_witness :
  let E := WebScraper.Env (λ _ _, Eff.HttpOk "<html></html>")
             (λ _, 2000000) false false in
  let out := WebScraper.make_request (λ s, s) E
               "https://vietnam.travel/events" 0 12 WebScraper.fresh_world in
  out.1 = Eff.Returned (Some "<html></html>") ∧
  WebScraper.make_request (λ s, s) E "https://vietnam.travel/events" 0 12
    (WebScraper.at_time 3000000 out.2)
    = (Eff.Returned (Some "<html></html>"), WebScraper.at_time 3000000 out.2).
Proof.
  intros E.
  apply (make_request_then_cached (λ s, s) E
           "https://vietnam.travel/events" 0 0 12 12 WebScraper.fresh_world
           "<html></html>" 3000000);
    try reflexivity.
  discriminate.
Defined.

Lemma controller_zero_days_witness :
  App.invoked (App.local_trip "Hue" "1000000" "0" "2") = false.
Proof.
  refine (proj1 (controller_zero_days App.ascii_strip App.dec_int
            App.within_city (λ _ _, App.Ok 0) App.rag_answers
            "" "Hue" "1000000" "0" "2" "" _)).
  vm_compute. reflexivity.
Defined.

Lemma parse_budget_ignores_separators_witness :
  App.parse_budget App.ascii_strip App.dec_int "1500000"
  = App.parse_budget App.ascii_strip App.dec_int "1,500.000".
Proof.
  refine (parse_budget_ignores_separators App.ascii_strip App.dec_int
            "1,500.000" _).
  reflexivity.
Defined.
